(** * float8: the 8-bit float codec and arithmetic engine of zerfoo/float8

    A shallow embedding of [float8.go], [convert.go], [arithmetic.go] and of
    the package configuration, followed by the properties of the codec, of the
    four operators, of the operator tables and of the ordering layer.

    Conventions.
    - [Float8] (Go [uint8]) is a [Z] in [0, 256); Go's fixed-width integer
      arithmetic is written with its wrap-around ([u8], [u32]).
    - [float32] is IEEE-754 binary32, taken from the standard library's
      [SpecFloat] at precision 24 and maximal exponent 128; sums, products and
      quotients round to nearest, ties to even, as Go's [float32] operators.
      A NaN is a single value: no code path of the package inspects the sign
      or the payload of a NaN.
    - Package-level variables live in a record [Globals] that is passed to
      every function reading them. *)

From Stdlib Require Import ZArith Lia Bool String.
From Stdlib Require Import Floats.SpecFloat.
From stdpp Require Import base list list_numbers.

Local Open Scope Z_scope.

(** ** Fixed-width integers *)

Definition u8 (x : Z) : Z := x mod 256.
Definition u16 (x : Z) : Z := x mod 65536.
Definition u32 (x : Z) : Z := x mod 4294967296.

(** ** binary32 *)

Module F32.

Definition prec : Z := 24.
Definition emax : Z := 128.

Definition float32 : Type := spec_float.

Definition zero : float32 := S754_zero false.
Definition NaN : float32 := S754_nan.

(** [math.Inf(sign)]: positive infinity when [sign >= 0]. *)
Definition Inf (sign : Z) : float32 := S754_infinity (sign <? 0).

Definition add : float32 -> float32 -> float32 := SFadd prec emax.
Definition sub : float32 -> float32 -> float32 := SFsub prec emax.
Definition mul : float32 -> float32 -> float32 := SFmul prec emax.
Definition div : float32 -> float32 -> float32 := SFdiv prec emax.

Definition eqb : float32 -> float32 -> bool := SFeqb.
Definition ltb : float32 -> float32 -> bool := SFltb.

(** [math.IsInf(float64(f), sign)]; the widening to float64 is exact. *)
Definition IsInf (f : float32) (sign : Z) : bool :=
  match f with
  | S754_infinity s => if sign =? 0 then true else Bool.eqb s (sign <? 0)
  | _ => false
  end.

Definition IsNaN (f : float32) : bool :=
  match f with S754_nan => true | _ => false end.

Definition Signbit (f : float32) : bool :=
  match f with
  | S754_zero s | S754_infinity s | S754_finite s _ _ => s
  | S754_nan => false
  end.

(** [math.Float32bits]: sign | 8-bit biased exponent | 23-bit fraction. *)
Definition Float32bits (f : float32) : Z :=
  match f with
  | S754_zero s => Z.shiftl (Z.b2z s) 31
  | S754_infinity s => Z.lor (Z.shiftl (Z.b2z s) 31) 0x7F800000
  | S754_nan => 0x7FC00000
  | S754_finite s m e =>
      if Z.pos m <? 0x800000
      then Z.lor (Z.shiftl (Z.b2z s) 31) (Z.pos m)
      else Z.lor (Z.shiftl (Z.b2z s) 31)
                 (Z.lor (Z.shiftl (e + 150) 23) (Z.pos m - 0x800000))
  end.

(** [math.Float32frombits]. *)
Definition Float32frombits (bits : Z) : float32 :=
  let s := Z.testbit bits 31 in
  let e := Z.land (Z.shiftr bits 23) 0xFF in
  let m := Z.land bits 0x7FFFFF in
  if e =? 0 then
    match m with
    | Z.pos p => S754_finite s p (-149)
    | _ => S754_zero s
    end
  else if e =? 255 then
    if m =? 0 then S754_infinity s else S754_nan
  else
    match m + 0x800000 with
    | Z.pos p => S754_finite s p (e - 150)
    | _ => S754_nan
    end.

Definition valid (f : float32) : bool := valid_binary prec emax f.

End F32.

Abbreviation float32 := F32.float32.

(** ** float8.go: the type, its constants and predicates *)

Definition Float8 : Type := Z.

Definition SignMask : Z := 0x80.
Definition ExponentMask : Z := 0x78.
Definition MantissaMask : Z := 0x07.
Definition MantissaLen : Z := 3.

Definition ExponentBias : Z := 7.
Definition ExponentMax : Z := 15.
Definition ExponentMin : Z := -7.

Definition Float32Bias : Z := 127.

Definition PositiveZero : Float8 := 0x00.
Definition NegativeZero : Float8 := 0x80.
Definition PositiveInfinity : Float8 := 0x78.
Definition NegativeInfinity : Float8 := 0xF8.
Definition NaN : Float8 := 0x7F.
Definition MaxValue : Float8 := 0x7E.
Definition MinValue : Float8 := 0xFE.
Definition SmallestPositive : Float8 := 0x01.

Inductive ConversionMode : Type := ModeDefault | ModeStrict | ModeFast.

Inductive ArithmeticMode : Type :=
  ArithmeticAuto | ArithmeticAlgorithmic | ArithmeticLookup.

Record Float8Error : Type := mkFloat8Error {
  Op : string;
  Value : float32;
  Msg : string
}.

(** Go's [error]: [None] is [nil]. *)
Definition error : Type := option Float8Error.

Definition ErrOverflow : Float8Error :=
  mkFloat8Error "convert" F32.zero "value too large for float8".
Definition ErrUnderflow : Float8Error :=
  mkFloat8Error "convert" F32.zero "value too small for float8".
Definition ErrNaN : Float8Error :=
  mkFloat8Error "convert" F32.zero "NaN not representable in float8".

Definition is_strict (mode : ConversionMode) : bool :=
  match mode with ModeStrict => true | _ => false end.

Definition in_u8 (f : Z) : Prop := 0 <= f < 256.

Definition IsZero (f : Float8) : bool :=
  (f =? PositiveZero) || (f =? NegativeZero).

Definition IsInf (f : Float8) : bool :=
  (f =? PositiveInfinity) || (f =? NegativeInfinity).

Definition IsFinite (f : Float8) : bool :=
  let exp := Z.shiftr (Z.land f ExponentMask) MantissaLen in
  exp <? 0x0F.

Definition IsNaN (f : Float8) : bool :=
  (Z.land f 0x7F =? 0x7F) && (Z.land f 0x07 =? 0x07).

Definition Sign (f : Float8) : Z :=
  if IsNaN f then 0
  else if IsZero f then 0
  else if negb (Z.land f SignMask =? 0) then -1
  else 1.

Definition Abs (f : Float8) : Float8 := Z.ldiff f SignMask.

Definition Neg (f : Float8) : Float8 :=
  if IsZero f then f else Z.lxor f SignMask.

(** ** Package-level variables *)

Record Globals : Type := mkGlobals {
  DefaultConversionMode : ConversionMode;
  DefaultArithmeticMode : ArithmeticMode;
  conversionTable : option (list float32);
  addTable : option (list Float8);
  subTable : option (list Float8);
  mulTable : option (list Float8);
  divTable : option (list Float8)
}.

(** The variables as the package declares them: both default modes at their
    first constant, every table [nil]. *)
Definition initial : Globals :=
  mkGlobals ModeDefault ArithmeticAuto None None None None None.

(** ** convert.go *)

(** The tail of [ToFloat8WithMode]: [Float8((sign << 7) | (uint32(exp8) <<
    MantissaLen) | mant8)], the conversion to [uint8] keeping the low byte. *)
Definition compose (sign exp8 mant8 : Z) : Float8 :=
  u8 (Z.lor (Z.lor (u32 (Z.shiftl sign 7))
                   (u32 (Z.shiftl (u32 exp8) MantissaLen)))
            mant8).

Definition signed_inf (sign : Z) : Float8 :=
  if negb (sign =? 0) then NegativeInfinity else PositiveInfinity.

Definition signed_zero (sign : Z) : Float8 :=
  if negb (sign =? 0) then NegativeZero else PositiveZero.

Definition ToFloat8WithMode (f32 : float32) (mode : ConversionMode)
  : Float8 * error :=
  if F32.eqb f32 F32.zero then
    if F32.Signbit f32 then (NegativeZero, None) else (PositiveZero, None)
  else if F32.IsInf f32 0 then
    if F32.ltb F32.zero f32 then (PositiveInfinity, None)
    else (NegativeInfinity, None)
  else if F32.IsNaN f32 then
    if is_strict mode then (0, Some ErrNaN) else (NaN, None)
  else
    let bits := F32.Float32bits f32 in
    let sign := Z.shiftr bits 31 in
    let exp := Z.land (Z.shiftr bits 23) 0xFF in
    let mant := Z.land bits 0x7FFFFF in
    if (exp =? 0) && (mant =? 0) then (signed_zero sign, None)
    else
      let exp8 := exp - Float32Bias + ExponentBias in
      if exp8 >? ExponentMax then
        if is_strict mode then
          (0, Some (mkFloat8Error "convert" f32
                      "overflow: value too large for float8"))
        else (signed_inf sign, None)
      else if exp8 <? ExponentMin then
        if is_strict mode then
          (0, Some (mkFloat8Error "convert" f32
                      "underflow: value too small for float8"))
        else (signed_zero sign, None)
      else
        let mant8 := Z.shiftr mant (23 - MantissaLen) in
        if negb (Z.land (Z.shiftr mant (23 - MantissaLen - 1)) 1 =? 0) then
          let mant8 := mant8 + 1 in
          if mant8 >=? Z.shiftl 1 MantissaLen then
            let mant8 := 0 in
            let exp8 := exp8 + 1 in
            if exp8 >? ExponentMax then
              if is_strict mode then
                (0, Some (mkFloat8Error "convert" f32
                            "overflow after rounding"))
              else (signed_inf sign, None)
            else (compose sign exp8 mant8, None)
          else (compose sign exp8 mant8, None)
        else (compose sign exp8 mant8, None).

Definition ToFloat8 (g : Globals) (f32 : float32) : Float8 :=
  fst (ToFloat8WithMode f32 (DefaultConversionMode g)).

Definition toFloat32Algorithmic (f : Float8) : float32 :=
  if IsZero f then
    if f =? NegativeZero then F32.Float32frombits 0x80000000
    else F32.zero
  else if IsNaN f then F32.NaN
  else if f =? PositiveInfinity then F32.Inf 1
  else if f =? NegativeInfinity then F32.Inf (-1)
  else
    let sign := Z.shiftr f 7 in
    let exp8 := Z.land (Z.shiftr f MantissaLen) 0x0F in
    let mant8 := Z.land f MantissaMask in
    let exp32 := u32 (u32 (exp8 - ExponentBias) + Float32Bias) in
    let mant32 := u32 (Z.shiftl mant8 (23 - MantissaLen)) in
    let bits :=
      Z.lor (Z.lor (u32 (Z.shiftl sign 31)) (u32 (Z.shiftl exp32 23))) mant32 in
    F32.Float32frombits bits.

(** A table read [t[i]].  Every table of the package is made with a fixed
    length (256 or 65536) that covers every index the package forms, see
    [tables_length] below, so the default is never returned. *)
Definition index {A : Type} (d : A) (t : list A) (i : Z) : A :=
  nth (Z.to_nat i) t d.

Definition ToFloat32 (g : Globals) (f : Float8) : float32 :=
  match conversionTable g with
  | Some t => index F32.zero t f
  | None => toFloat32Algorithmic f
  end.

(** ** arithmetic.go: the algorithmic operators *)

Definition addAlgorithmic (g : Globals) (a b : Float8) : Float8 :=
  if IsZero a then b
  else if IsZero b then a
  else if IsInf a || IsInf b then
    if (a =? PositiveInfinity) && (b =? NegativeInfinity) then PositiveZero
    else if (a =? NegativeInfinity) && (b =? PositiveInfinity) then PositiveZero
    else if IsInf a then a
    else b
  else
    let f32a := ToFloat32 g a in
    let f32b := ToFloat32 g b in
    let result := F32.add f32a f32b in
    ToFloat8 g result.

Definition subAlgorithmic (g : Globals) (a b : Float8) : Float8 :=
  if IsZero b then a
  else if IsZero a then Neg b
  else if IsInf a || IsInf b then
    if (a =? b) && IsInf a then PositiveZero
    else if IsInf a then a
    else Neg b
  else
    let f32a := ToFloat32 g a in
    let f32b := ToFloat32 g b in
    let result := F32.sub f32a f32b in
    ToFloat8 g result.

Definition mulAlgorithmic (g : Globals) (a b : Float8) : Float8 :=
  if IsNaN a || IsNaN b then NaN
  else
    let signA := if negb (Z.land a SignMask =? 0) then -1 else 1 in
    let signB := if negb (Z.land b SignMask =? 0) then -1 else 1 in
    if (IsInf a && IsZero b) || (IsZero a && IsInf b) then NaN
    else if IsZero a || IsZero b then
      if signA * signB <? 0 then NegativeZero else PositiveZero
    else if IsInf a || IsInf b then
      if signA * signB >? 0 then PositiveInfinity else NegativeInfinity
    else
      let f32a := ToFloat32 g a in
      let f32b := ToFloat32 g b in
      let result := F32.mul f32a f32b in
      ToFloat8 g result.

Definition divAlgorithmic (g : Globals) (a b : Float8) : Float8 :=
  if IsNaN a || IsNaN b then NaN
  else if IsZero b then
    if IsZero a then NaN
    else
      let signA := negb (Z.land a SignMask =? 0) in
      let signB := negb (Z.land b SignMask =? 0) in
      if Bool.eqb signA signB then PositiveInfinity else NegativeInfinity
  else if IsZero a then
    let signA := negb (Z.land a SignMask =? 0) in
    let signB := negb (Z.land b SignMask =? 0) in
    if negb (Bool.eqb signA signB) then NegativeZero else PositiveZero
  else if IsInf a then
    if IsInf b then NaN
    else
      let signA := negb (Z.land a SignMask =? 0) in
      let signB := negb (Z.land b SignMask =? 0) in
      if Bool.eqb signA signB then PositiveInfinity else NegativeInfinity
  else if IsInf b then
    let signA := negb (Z.land a SignMask =? 0) in
    let signB := negb (Z.land b SignMask =? 0) in
    if Bool.eqb signA signB then PositiveZero else NegativeZero
  else
    let f32a := ToFloat32 g a in
    let f32b := ToFloat32 g b in
    let result := F32.div f32a f32b in
    if F32.IsInf result 0 then
      if Bool.eqb (Sign a >? 0) (Sign b >? 0) then PositiveInfinity
      else NegativeInfinity
    else ToFloat8 g result.

(** ** arithmetic.go: dispatch on the arithmetic mode *)

Definition uses_table (mode : ArithmeticMode) : bool :=
  match mode with
  | ArithmeticAuto | ArithmeticLookup => true
  | ArithmeticAlgorithmic => false
  end.

(** [uint16(a)<<8|uint16(b)] *)
Definition table_index (a b : Float8) : Z :=
  Z.lor (u16 (Z.shiftl (u16 a) 8)) (u16 b).

Definition AddWithMode (g : Globals) (a b : Float8) (mode : ArithmeticMode)
  : Float8 :=
  match uses_table mode, addTable g with
  | true, Some t => index 0 t (table_index a b)
  | _, _ => addAlgorithmic g a b
  end.

Definition SubWithMode (g : Globals) (a b : Float8) (mode : ArithmeticMode)
  : Float8 :=
  match uses_table mode, subTable g with
  | true, Some t => index 0 t (table_index a b)
  | _, _ => subAlgorithmic g a b
  end.

Definition MulWithMode (g : Globals) (a b : Float8) (mode : ArithmeticMode)
  : Float8 :=
  match uses_table mode, mulTable g with
  | true, Some t => index 0 t (table_index a b)
  | _, _ => mulAlgorithmic g a b
  end.

Definition DivWithMode (g : Globals) (a b : Float8) (mode : ArithmeticMode)
  : Float8 :=
  match uses_table mode, divTable g with
  | true, Some t => index 0 t (table_index a b)
  | _, _ => divAlgorithmic g a b
  end.

Definition Add (g : Globals) (a b : Float8) : Float8 :=
  AddWithMode g a b (DefaultArithmeticMode g).
Definition Sub (g : Globals) (a b : Float8) : Float8 :=
  SubWithMode g a b (DefaultArithmeticMode g).
Definition Mul (g : Globals) (a b : Float8) : Float8 :=
  MulWithMode g a b (DefaultArithmeticMode g).
Definition Div (g : Globals) (a b : Float8) : Float8 :=
  DivWithMode g a b (DefaultArithmeticMode g).

(** ** arithmetic.go: comparisons *)

Definition Equal (a b : Float8) : bool :=
  if IsNaN a || IsNaN b then false
  else if IsZero a && IsZero b then true
  else
    let aInf := IsInf a in
    let bInf := IsInf b in
    if aInf || bInf then
      if aInf && bInf then a =? b else false
    else a =? b.

Definition Less (g : Globals) (a b : Float8) : bool :=
  if IsNaN a || IsNaN b then false
  else if IsZero a && IsZero b then false
  else
    let aInf := IsInf a in
    let bInf := IsInf b in
    if aInf && bInf then (a =? NegativeInfinity) && (b =? PositiveInfinity)
    else if aInf then a =? NegativeInfinity
    else if bInf then b =? PositiveInfinity
    else F32.ltb (ToFloat32 g a) (ToFloat32 g b).

Definition Greater (g : Globals) (a b : Float8) : bool := Less g b a.

Definition Min (g : Globals) (a b : Float8) : Float8 :=
  if IsNaN a || IsNaN b then NaN
  else if (a =? NegativeInfinity) || (b =? NegativeInfinity)
  then NegativeInfinity
  else if a =? PositiveInfinity then b
  else if b =? PositiveInfinity then a
  else if Less g a b then a else b.

Definition Max (g : Globals) (a b : Float8) : Float8 :=
  if IsNaN a || IsNaN b then NaN
  else if (a =? PositiveInfinity) || (b =? PositiveInfinity)
  then PositiveInfinity
  else if a =? NegativeInfinity then b
  else if b =? NegativeInfinity then a
  else if Greater g a b then a else b.

(** ** arithmetic.go and convert.go: the lookup tables *)

(** The four tables under construction in [initArithmeticTables]. *)
Record OpTables : Type := mkOpTables {
  t_add : list Float8;
  t_sub : list Float8;
  t_mul : list Float8;
  t_div : list Float8
}.

(** One iteration of the inner loop: [idx := a<<8 | b], then the four
    stores.  [a] and [b] are Go [int]s. *)
Definition store_pair (g : Globals) (a b : Z) (T : OpTables) : OpTables :=
  let idx := Z.to_nat (Z.lor (Z.shiftl a 8) b) in
  let f8a := u8 a in
  let f8b := u8 b in
  mkOpTables (<[idx := addAlgorithmic g f8a f8b]> (t_add T))
             (<[idx := subAlgorithmic g f8a f8b]> (t_sub T))
             (<[idx := mulAlgorithmic g f8a f8b]> (t_mul T))
             (<[idx := divAlgorithmic g f8a f8b]> (t_div T)).

(** The four [make([]Float8, 65536)] and the two nested loops. *)
Definition build_tables (g : Globals) : OpTables :=
  let fresh := replicate (Z.to_nat 65536) 0 in
  fold_left
    (fun T a => fold_left (fun T b => store_pair g a b T) (seqZ 0 256) T)
    (seqZ 0 256)
    (mkOpTables fresh fresh fresh fresh).

Definition initArithmeticTables (g : Globals) : Globals :=
  match addTable g with
  | Some _ => g
  | None =>
      let T := build_tables g in
      mkGlobals (DefaultConversionMode g) (DefaultArithmeticMode g)
                (conversionTable g)
                (Some (t_add T)) (Some (t_sub T))
                (Some (t_mul T)) (Some (t_div T))
  end.

Definition EnableFastArithmetic (g : Globals) : Globals :=
  initArithmeticTables g.

Definition DisableFastArithmetic (g : Globals) : Globals :=
  mkGlobals (DefaultConversionMode g) (DefaultArithmeticMode g)
            (conversionTable g) None None None None.

Definition build_conversion_table : list float32 :=
  fold_left
    (fun t i => <[Z.to_nat i := toFloat32Algorithmic (u8 i)]> t)
    (seqZ 0 256)
    (replicate (Z.to_nat 256) F32.zero).

Definition initConversionTable (g : Globals) : Globals :=
  match conversionTable g with
  | Some _ => g
  | None =>
      mkGlobals (DefaultConversionMode g) (DefaultArithmeticMode g)
                (Some build_conversion_table)
                (addTable g) (subTable g) (mulTable g) (divTable g)
  end.

Definition EnableFastConversion (g : Globals) : Globals :=
  initConversionTable g.

Definition DisableFastConversion (g : Globals) : Globals :=
  mkGlobals (DefaultConversionMode g) (DefaultArithmeticMode g)
            None
            (addTable g) (subTable g) (mulTable g) (divTable g).

(** ** float8.go: configuration *)

Module Config.
Record t : Type := mk {
  EnableFastArithmetic : bool;
  EnableFastConversion : bool;
  DefaultMode : ConversionMode;
  ArithmeticMode : ArithmeticMode
}.
End Config.

Definition DefaultConfig : Config.t :=
  Config.mk false false ModeDefault ArithmeticAuto.

Definition Configure (config : Config.t) (g : Globals) : Globals :=
  let g1 := if Config.EnableFastArithmetic config
            then EnableFastArithmetic g else DisableFastArithmetic g in
  let g2 := if Config.EnableFastConversion config
            then EnableFastConversion g1 else DisableFastConversion g1 in
  mkGlobals (Config.DefaultMode config) (Config.ArithmeticMode config)
            (conversionTable g2)
            (addTable g2) (subTable g2) (mulTable g2) (divTable g2).

(** ** The states of the package

    The tables are unexported: a client changes them only through the
    functions above.  The two default modes are exported variables and can
    be assigned directly. *)

Inductive action : Type :=
| DoEnableFastArithmetic
| DoDisableFastArithmetic
| DoEnableFastConversion
| DoDisableFastConversion
| DoConfigure (config : Config.t)
| SetDefaultConversionMode (mode : ConversionMode)
| SetDefaultArithmeticMode (mode : ArithmeticMode).

Definition run (act : action) (g : Globals) : Globals :=
  match act with
  | DoEnableFastArithmetic => EnableFastArithmetic g
  | DoDisableFastArithmetic => DisableFastArithmetic g
  | DoEnableFastConversion => EnableFastConversion g
  | DoDisableFastConversion => DisableFastConversion g
  | DoConfigure config => Configure config g
  | SetDefaultConversionMode mode =>
      mkGlobals mode (DefaultArithmeticMode g) (conversionTable g)
                (addTable g) (subTable g) (mulTable g) (divTable g)
  | SetDefaultArithmeticMode mode =>
      mkGlobals (DefaultConversionMode g) mode (conversionTable g)
                (addTable g) (subTable g) (mulTable g) (divTable g)
  end.

Inductive reachable : Globals -> Prop :=
| reachable_initial : reachable initial
| reachable_run act g : reachable g -> reachable (run act g).

(** * Properties *)

(** ** Integers and bytes *)

Lemma lor_shiftl_low (a b n : Z) :
  0 <= n -> 0 <= b < 2 ^ n -> Z.lor (Z.shiftl a n) b = a * 2 ^ n + b.
Proof.
  intros Hn Hb.
  assert (Hdisj : Z.land (Z.shiftl a n) b = 0).
  { replace b with (Z.land b (Z.ones n)) at 1
      by (rewrite Z.land_ones by lia; apply Z.mod_small; lia).
    rewrite (Z.land_comm b), Z.land_assoc, Z.land_ones by lia.
    rewrite Z.shiftl_mul_pow2 by lia.
    rewrite Z.mod_mul by lia. apply Z.land_0_l. }
  pose proof (Z.add_lor_land (Z.shiftl a n) b) as Hsum.
  rewrite Hdisj in Hsum.
  rewrite <- (Z.shiftl_mul_pow2 a n) by lia. lia.
Qed.

Lemma table_index_eq (a b : Z) :
  in_u8 a -> in_u8 b -> table_index a b = a * 256 + b.
Proof.
  unfold in_u8, table_index, u16. intros Ha Hb.
  rewrite (Z.mod_small a), (Z.mod_small b) by lia.
  rewrite Z.shiftl_mul_pow2 by lia.
  rewrite Z.mod_small by lia.
  rewrite <- (Z.shiftl_mul_pow2 a 8) by lia.
  now rewrite lor_shiftl_low by lia.
Qed.

Lemma u8_small (a : Z) : in_u8 a -> u8 a = a.
Proof. intros Ha. now apply Z.mod_small. Qed.

Lemma in_u8_seqZ (a : Z) : a ∈ seqZ 0 256 <-> in_u8 a.
Proof. rewrite elem_of_seqZ. unfold in_u8. lia. Qed.

(** A property checked on the 256 bytes holds of every [Float8]. *)
Lemma forall_u8 (P : Z -> bool) :
  forallb P (seqZ 0 256) = true -> forall f, in_u8 f -> P f = true.
Proof.
  intros Hall f Hf. rewrite forallb_forall in Hall.
  apply Hall, list_elem_of_In, in_u8_seqZ, Hf.
Qed.

Lemma forall_u8_pairs (P : Z -> Z -> bool) :
  forallb (fun a => forallb (P a) (seqZ 0 256)) (seqZ 0 256) = true ->
  forall a b, in_u8 a -> in_u8 b -> P a b = true.
Proof.
  intros Hall a b Ha Hb.
  apply (forall_u8 (P a)); [|exact Hb].
  now apply (forall_u8 (fun a => forallb (P a) (seqZ 0 256))).
Qed.

Lemma Some_eq_inv {A : Type} (x y : A) : Some x = Some y -> x = y.
Proof. intros Heq. now injection Heq. Qed.

(** ** Loops that store into a slice *)

Section Stores.
Context {A K : Type}.
Variable idx : K -> nat.
Variable val : K -> A.

Definition store (t : list A) (k : K) : list A := <[idx k := val k]> t.

Lemma length_stores (ks : list K) (t : list A) :
  length (fold_left store ks t) = length t.
Proof.
  revert t. induction ks as [|k ks IH]; intros t; simpl; [done|].
  rewrite IH. apply length_insert.
Qed.

(** After the loop a visited slot holds the value stored for its key,
    provided the keys sharing the slot agree on the value. *)
Lemma lookup_stores (ks : list K) (t : list A) (k : K) :
  k ∈ ks ->
  (forall k', k' ∈ ks -> idx k' = idx k -> val k' = val k) ->
  (idx k < length t)%nat ->
  fold_left store ks t !! idx k = Some (val k).
Proof.
  induction ks as [|k0 ks IH] using rev_ind; intros Hin Hagree Hlen.
  - inversion Hin.
  - rewrite fold_left_app. simpl. unfold store at 1.
    destruct (decide (idx k0 = idx k)) as [Heq|Hne].
    + rewrite Heq, list_lookup_insert_eq by (now rewrite length_stores).
      f_equal. apply Hagree; [|done].
      apply elem_of_app. right. now apply list_elem_of_singleton.
    + rewrite list_lookup_insert_ne by done.
      apply elem_of_app in Hin as [Hin|Hin].
      * apply IH; [done| |done].
        intros k' Hk'. apply Hagree, elem_of_app. now left.
      * apply list_elem_of_singleton in Hin. now subst.
Qed.
End Stores.

Lemma fold_left_nested {A B C : Type} (f : A -> B * C -> A)
    (bs : list B) (cs : list C) (t : A) :
  fold_left (fun t b => fold_left (fun t c => f t (b, c)) cs t) bs t =
  fold_left f (b ← bs; (fun c => (b, c)) <$> cs) t.
Proof.
  revert t. induction bs as [|b bs IH]; intros t; simpl; [done|].
  rewrite fold_left_app, <- IH. f_equal.
  generalize t. clear. induction cs as [|c cs IH]; intros t; simpl; [done|].
  apply IH.
Qed.

Lemma elem_of_pairs {B C : Type} (bs : list B) (cs : list C) (b : B) (c : C) :
  (b, c) ∈ (b ← bs; (fun c => (b, c)) <$> cs) <-> b ∈ bs /\ c ∈ cs.
Proof.
  rewrite list_elem_of_bind. split.
  - intros (b' & Hin & Hb'). apply list_elem_of_fmap in Hin as (c' & Heq & Hc').
    now inversion Heq; subst.
  - intros [Hb Hc]. exists b. split; [|done].
    apply list_elem_of_fmap. now exists c.
Qed.

(** ** The operator tables *)

Definition pair_slot (p : Z * Z) : nat :=
  Z.to_nat (Z.lor (Z.shiftl (fst p) 8) (snd p)).

Definition byte_pairs : list (Z * Z) :=
  a ← seqZ 0 256; (fun b => (a, b)) <$> seqZ 0 256.

Definition fresh_table : list Float8 := replicate (Z.to_nat 65536) 0.

(** The value an operator table holds for a pair of loop counters. *)
Definition table_cell (op : Globals -> Float8 -> Float8 -> Float8)
    (g : Globals) (p : Z * Z) : Float8 :=
  op g (u8 (fst p)) (u8 (snd p)).

Section OneTable.
Variable proj : OpTables -> list Float8.
Variable op : Globals -> Float8 -> Float8 -> Float8.
Hypothesis proj_store : forall g a b T,
  proj (store_pair g a b T) =
  <[pair_slot (a, b) := op g (u8 a) (u8 b)]> (proj T).
Hypothesis proj_fresh :
  proj (mkOpTables fresh_table fresh_table fresh_table fresh_table) =
  fresh_table.


Lemma proj_loops (g : Globals) (outer inner : list Z) (T : OpTables) :
  proj (fold_left
          (fun T a => fold_left (fun T b => store_pair g a b T) inner T)
          outer T) =
  fold_left
    (fun t a =>
       fold_left (fun t b => store pair_slot (table_cell op g) t (a, b)) inner t)
    outer (proj T).
Proof.
  revert T. induction outer as [|a outer IH]; intros T; simpl; [done|].
  rewrite IH. f_equal.
  generalize T. clear IH.
  induction inner as [|b inner IHb]; intros T'; simpl; [done|].
  rewrite IHb. f_equal. apply proj_store.
Qed.

(** Each table is filled by its own sequence of stores. *)
Lemma proj_build_tables (g : Globals) :
  proj (build_tables g) =
  fold_left (store pair_slot (table_cell op g)) byte_pairs fresh_table.
Proof.
  unfold build_tables, byte_pairs. fold fresh_table.
  rewrite proj_loops, proj_fresh.
  apply (fold_left_nested (store pair_slot (table_cell op g))).
Qed.

Lemma length_proj_build_tables (g : Globals) :
  length (proj (build_tables g)) = Z.to_nat 65536.
Proof.
  rewrite proj_build_tables, length_stores. apply length_replicate.
Qed.

(** The slot read by [table[uint16(a)<<8|uint16(b)]] holds [op a b]. *)
Lemma index_proj_build_tables (g : Globals) (a b : Float8) :
  in_u8 a -> in_u8 b ->
  index 0 (proj (build_tables g)) (table_index a b) = op g a b.
Proof.
  intros Ha Hb. unfold index.
  assert (Hslot : forall a' b', in_u8 b' ->
            pair_slot (a', b') = Z.to_nat (a' * 256 + b')).
  { intros a' b' Hb'. unfold pair_slot. simpl.
    rewrite lor_shiftl_low by (unfold in_u8 in Hb'; lia). done. }
  rewrite table_index_eq, <- (Hslot a b) by done.
  apply nth_lookup_Some.
  rewrite proj_build_tables.
  replace (op g a b) with (table_cell op g (a, b))
    by (unfold table_cell; simpl; now rewrite !u8_small).
  apply lookup_stores.
  - apply elem_of_pairs. now rewrite !in_u8_seqZ.
  - intros [a' b'] Hin Hsame.
    apply elem_of_pairs in Hin. rewrite !in_u8_seqZ in Hin.
    destruct Hin as [Ha' Hb'].
    rewrite !Hslot in Hsame by done.
    unfold in_u8 in *.
    assert (a' = a /\ b' = b) as [-> ->] by lia. done.
  - rewrite Hslot by done. unfold fresh_table.
    rewrite length_replicate. unfold in_u8 in *. lia.
Qed.
End OneTable.

Lemma index_t_add g a b :
  in_u8 a -> in_u8 b ->
  index 0 (t_add (build_tables g)) (table_index a b) = addAlgorithmic g a b.
Proof.
  apply (index_proj_build_tables t_add addAlgorithmic); reflexivity.
Qed.

Lemma index_t_sub g a b :
  in_u8 a -> in_u8 b ->
  index 0 (t_sub (build_tables g)) (table_index a b) = subAlgorithmic g a b.
Proof.
  apply (index_proj_build_tables t_sub subAlgorithmic); reflexivity.
Qed.

Lemma index_t_mul g a b :
  in_u8 a -> in_u8 b ->
  index 0 (t_mul (build_tables g)) (table_index a b) = mulAlgorithmic g a b.
Proof.
  apply (index_proj_build_tables t_mul mulAlgorithmic); reflexivity.
Qed.

Lemma index_t_div g a b :
  in_u8 a -> in_u8 b ->
  index 0 (t_div (build_tables g)) (table_index a b) = divAlgorithmic g a b.
Proof.
  apply (index_proj_build_tables t_div divAlgorithmic); reflexivity.
Qed.

(** ** The conversion table *)

Lemma length_build_conversion_table :
  length build_conversion_table = Z.to_nat 256.
Proof.
  unfold build_conversion_table.
  change (fun t i => <[Z.to_nat i := toFloat32Algorithmic (u8 i)]> t)
    with (store Z.to_nat (fun i => toFloat32Algorithmic (u8 i))).
  rewrite length_stores. apply length_replicate.
Qed.

Lemma index_build_conversion_table (f : Float8) :
  in_u8 f ->
  index F32.zero build_conversion_table f = toFloat32Algorithmic f.
Proof.
  intros Hf. unfold index, build_conversion_table.
  change (fun t i => <[Z.to_nat i := toFloat32Algorithmic (u8 i)]> t)
    with (store Z.to_nat (fun i => toFloat32Algorithmic (u8 i))).
  apply nth_lookup_Some.
  rewrite <- (u8_small f) at 2 by done.
  apply (lookup_stores Z.to_nat (fun i => toFloat32Algorithmic (u8 i))).
  - now apply in_u8_seqZ.
  - intros f' Hf' Hsame. apply in_u8_seqZ in Hf'. unfold in_u8 in *.
    assert (f' = f) as -> by lia. done.
  - rewrite length_replicate. unfold in_u8 in Hf. lia.
Qed.

(** ** Invariants of the package state *)

Definition conversion_ok (g : Globals) : Prop :=
  conversionTable g = None \/ conversionTable g = Some build_conversion_table.

(** The operator tables of [g] are those built in the state [g0]. *)
Definition tables_from (g0 g : Globals) : Prop :=
  addTable g = Some (t_add (build_tables g0)) /\
  subTable g = Some (t_sub (build_tables g0)) /\
  mulTable g = Some (t_mul (build_tables g0)) /\
  divTable g = Some (t_div (build_tables g0)).

Definition tables_absent (g : Globals) : Prop :=
  addTable g = None /\ subTable g = None /\
  mulTable g = None /\ divTable g = None.

(** The four tables are absent together or were built together, in a state
    whose conversion table was sound. *)
Definition tables_ok (g : Globals) : Prop :=
  tables_absent g \/ exists g0, conversion_ok g0 /\ tables_from g0 g.

Lemma ok_EnableFastArithmetic g :
  conversion_ok g -> tables_ok g ->
  conversion_ok (EnableFastArithmetic g) /\ tables_ok (EnableFastArithmetic g).
Proof.
  intros Hc Ht. unfold EnableFastArithmetic, initArithmeticTables.
  destruct (addTable g) eqn:Hadd; [done|].
  split; [exact Hc|]. right. exists g. split; [exact Hc|].
  now repeat split.
Qed.

Lemma ok_DisableFastArithmetic g :
  conversion_ok g ->
  conversion_ok (DisableFastArithmetic g) /\ tables_ok (DisableFastArithmetic g).
Proof. intros Hc. split; [exact Hc|]. left. now repeat split. Qed.

Lemma ok_EnableFastConversion g :
  conversion_ok g -> tables_ok g ->
  conversion_ok (EnableFastConversion g) /\ tables_ok (EnableFastConversion g).
Proof.
  intros Hc Ht. unfold EnableFastConversion, initConversionTable.
  destruct (conversionTable g) eqn:Hconv; [done|].
  split; [now right|]. exact Ht.
Qed.

Lemma ok_DisableFastConversion g :
  tables_ok g ->
  conversion_ok (DisableFastConversion g) /\ tables_ok (DisableFastConversion g).
Proof. intros Ht. split; [now left|]. exact Ht. Qed.

Lemma ok_Configure config g :
  conversion_ok g -> tables_ok g ->
  conversion_ok (Configure config g) /\ tables_ok (Configure config g).
Proof.
  intros Hc Ht. unfold Configure.
  set (g1 := if Config.EnableFastArithmetic config
             then EnableFastArithmetic g else DisableFastArithmetic g).
  assert (conversion_ok g1 /\ tables_ok g1) as [Hc1 Ht1].
  { subst g1. destruct (Config.EnableFastArithmetic config).
    - now apply ok_EnableFastArithmetic.
    - now apply ok_DisableFastArithmetic. }
  set (g2 := if Config.EnableFastConversion config
             then EnableFastConversion g1 else DisableFastConversion g1).
  assert (conversion_ok g2 /\ tables_ok g2) as [Hc2 Ht2].
  { subst g2. destruct (Config.EnableFastConversion config).
    - now apply ok_EnableFastConversion.
    - now apply ok_DisableFastConversion. }
  split; [exact Hc2 | exact Ht2].
Qed.

Lemma reachable_ok g : reachable g -> conversion_ok g /\ tables_ok g.
Proof.
  induction 1 as [|act g Hg [Hc Ht]].
  - split; [now left|]. left. now repeat split.
  - destruct act; simpl.
    + now apply ok_EnableFastArithmetic.
    + now apply ok_DisableFastArithmetic.
    + now apply ok_EnableFastConversion.
    + now apply ok_DisableFastConversion.
    + now apply ok_Configure.
    + split; [exact Hc | exact Ht].
    + split; [exact Hc | exact Ht].
Qed.

(** Every table has the length it was made with, so no read of the package
    is out of range. *)
Lemma tables_length g :
  reachable g ->
  (forall t, conversionTable g = Some t -> length t = Z.to_nat 256) /\
  (forall t, addTable g = Some t \/ subTable g = Some t \/
             mulTable g = Some t \/ divTable g = Some t ->
             length t = Z.to_nat 65536).
Proof.
  intros Hg. apply reachable_ok in Hg as [Hc Ht]. split.
  - intros t Heq. destruct Hc as [Hc|Hc]; rewrite Hc in Heq; [done|].
    apply Some_eq_inv in Heq. subst t. apply length_build_conversion_table.
  - intros t Heq.
    destruct Ht as [(Ha & Hs & Hm & Hd)|(g0 & _ & Ha & Hs & Hm & Hd)].
    + rewrite Ha, Hs, Hm, Hd in Heq. now intuition.
    + rewrite Ha, Hs, Hm, Hd in Heq.
      destruct Heq as [Heq|[Heq|[Heq|Heq]]];
        apply Some_eq_inv in Heq; subst t.
      * apply (length_proj_build_tables t_add addAlgorithmic); reflexivity.
      * apply (length_proj_build_tables t_sub subAlgorithmic); reflexivity.
      * apply (length_proj_build_tables t_mul mulAlgorithmic); reflexivity.
      * apply (length_proj_build_tables t_div divAlgorithmic); reflexivity.
Qed.

(** With a sound conversion table [ToFloat32] is the algorithmic decoder. *)
Lemma ToFloat32_algorithmic g f :
  conversion_ok g -> in_u8 f -> ToFloat32 g f = toFloat32Algorithmic f.
Proof.
  intros [Hc|Hc] Hf; unfold ToFloat32; rewrite Hc; [done|].
  now apply index_build_conversion_table.
Qed.

Opaque build_tables build_conversion_table.

(** The algorithmic operators read two package variables only: the default
    conversion mode and the conversion table. *)
Lemma algorithmic_ext g1 g2 a b :
  DefaultConversionMode g1 = DefaultConversionMode g2 ->
  conversionTable g1 = conversionTable g2 ->
  addAlgorithmic g1 a b = addAlgorithmic g2 a b /\
  subAlgorithmic g1 a b = subAlgorithmic g2 a b /\
  mulAlgorithmic g1 a b = mulAlgorithmic g2 a b /\
  divAlgorithmic g1 a b = divAlgorithmic g2 a b.
Proof.
  intros Hmode Hconv.
  unfold addAlgorithmic, subAlgorithmic, mulAlgorithmic, divAlgorithmic,
    ToFloat32, ToFloat8.
  now rewrite Hmode, Hconv.
Qed.

(** The encoder reads its mode through [is_strict] only. *)
Lemma ToFloat8WithMode_strictness (f32 : float32) (m1 m2 : ConversionMode) :
  is_strict m1 = is_strict m2 ->
  ToFloat8WithMode f32 m1 = ToFloat8WithMode f32 m2.
Proof. intros H. unfold ToFloat8WithMode. now rewrite H. Qed.

(** The operator tables are current: absent, or built in a state whose
    default conversion mode was as strict as the present one (Default and
    Fast encode alike). *)
Definition tables_current (g : Globals) : Prop :=
  tables_absent g \/
  exists g0, conversion_ok g0 /\ tables_from g0 g /\
             is_strict (DefaultConversionMode g0) =
             is_strict (DefaultConversionMode g).

(** With current tables every dispatch agrees with the algorithm. *)
Lemma current_dispatch (g : Globals) (a b : Float8) (mode : ArithmeticMode) :
  conversion_ok g -> tables_current g -> in_u8 a -> in_u8 b ->
  AddWithMode g a b mode = addAlgorithmic g a b /\
  SubWithMode g a b mode = subAlgorithmic g a b /\
  MulWithMode g a b mode = mulAlgorithmic g a b /\
  DivWithMode g a b mode = divAlgorithmic g a b.
Proof.
  intros Hc Hcur Ha Hb.
  unfold AddWithMode, SubWithMode, MulWithMode, DivWithMode.
  destruct (uses_table mode); [|now repeat split].
  destruct Hcur as [(Hadd & Hsub & Hmul & Hdiv)|
                    (g0 & Hc0 & (Hadd & Hsub & Hmul & Hdiv) & Hmode)];
    rewrite Hadd, Hsub, Hmul, Hdiv; [now repeat split|].
  rewrite index_t_add, index_t_sub, index_t_mul, index_t_div by done.
  unfold addAlgorithmic, subAlgorithmic, mulAlgorithmic, divAlgorithmic,
    ToFloat8.
  rewrite !(ToFloat32_algorithmic g0), !(ToFloat32_algorithmic g) by done.
  rewrite !(fun x => ToFloat8WithMode_strictness x _ _ Hmode).
  now repeat split.
Qed.

(** The run of a list of actions, and the runs along which the default
    conversion mode stays as strict as it was: it keeps its value, or
    changes between Default and Fast. *)
Definition run_all (acts : list action) (g : Globals) : Globals :=
  fold_left (fun s act => run act s) acts g.

Fixpoint mode_kept (acts : list action) (g : Globals) : Prop :=
  match acts with
  | [] => True
  | act :: rest =>
      is_strict (DefaultConversionMode (run act g)) =
      is_strict (DefaultConversionMode g) /\
      mode_kept rest (run act g)
  end.

Lemma current_EnableFastArithmetic (g : Globals) :
  conversion_ok g -> tables_current g ->
  tables_current (EnableFastArithmetic g).
Proof.
  intros Hc Hcur. unfold EnableFastArithmetic, initArithmeticTables.
  destruct (addTable g) eqn:Hadd; [exact Hcur|].
  right. exists g. now repeat split.
Qed.

Lemma tables_current_fields (g g' : Globals) :
  addTable g' = addTable g -> subTable g' = subTable g ->
  mulTable g' = mulTable g -> divTable g' = divTable g ->
  is_strict (DefaultConversionMode g') = is_strict (DefaultConversionMode g) ->
  tables_current g -> tables_current g'.
Proof.
  intros Ea Es Em Ed Emode.
  unfold tables_current, tables_absent, tables_from.
  now rewrite Ea, Es, Em, Ed, Emode.
Qed.

Lemma kept_by_EnableFastArithmetic (g : Globals) :
  DefaultConversionMode (EnableFastArithmetic g) = DefaultConversionMode g /\
  conversionTable (EnableFastArithmetic g) = conversionTable g.
Proof.
  unfold EnableFastArithmetic, initArithmeticTables.
  now destruct (addTable g).
Qed.

Lemma kept_by_EnableFastConversion (g : Globals) :
  DefaultConversionMode (EnableFastConversion g) = DefaultConversionMode g /\
  addTable (EnableFastConversion g) = addTable g /\
  subTable (EnableFastConversion g) = subTable g /\
  mulTable (EnableFastConversion g) = mulTable g /\
  divTable (EnableFastConversion g) = divTable g.
Proof.
  unfold EnableFastConversion, initConversionTable.
  now destruct (conversionTable g).
Qed.

Lemma current_Configure (config : Config.t) (g : Globals) :
  conversion_ok g -> tables_current g ->
  is_strict (Config.DefaultMode config) = is_strict (DefaultConversionMode g) ->
  tables_current (Configure config g).
Proof.
  intros Hc Hcur Hkept. unfold Configure.
  set (g1 := if Config.EnableFastArithmetic config
             then EnableFastArithmetic g else DisableFastArithmetic g).
  assert (Hg1 : tables_current g1 /\
                DefaultConversionMode g1 = DefaultConversionMode g).
  { subst g1. destruct (Config.EnableFastArithmetic config).
    - split; [now apply current_EnableFastArithmetic|].
      apply kept_by_EnableFastArithmetic.
    - split; [|reflexivity]. left. now repeat split. }
  destruct Hg1 as [Hcur1 Hmode1].
  set (g2 := if Config.EnableFastConversion config
             then EnableFastConversion g1 else DisableFastConversion g1).
  assert (Hg2 : DefaultConversionMode g2 = DefaultConversionMode g1 /\
                addTable g2 = addTable g1 /\ subTable g2 = subTable g1 /\
                mulTable g2 = mulTable g1 /\ divTable g2 = divTable g1).
  { subst g2. destruct (Config.EnableFastConversion config).
    - apply kept_by_EnableFastConversion.
    - now repeat split. }
  destruct Hg2 as (Hmode2 & Ea & Es & Em & Ed).
  apply (tables_current_fields g1); try done.
  cbn [DefaultConversionMode]. congruence.
Qed.

Lemma current_run (act : action) (g : Globals) :
  conversion_ok g -> tables_current g ->
  is_strict (DefaultConversionMode (run act g)) =
  is_strict (DefaultConversionMode g) ->
  conversion_ok (run act g) /\ tables_current (run act g).
Proof.
  intros Hc Hcur Hkept.
  assert (Hok : tables_ok g).
  { destruct Hcur as [Habs|(g0 & Hc0 & Hfrom & _)]; [now left|].
    right. now exists g0. }
  destruct act; simpl in *.
  - split; [now apply ok_EnableFastArithmetic|].
    now apply current_EnableFastArithmetic.
  - split; [exact Hc|]. left. now repeat split.
  - split; [now apply ok_EnableFastConversion|].
    destruct (kept_by_EnableFastConversion g) as (Em & Ea & Es & Emu & Ed).
    now apply (tables_current_fields g); [| | | |rewrite Em|].
  - split; [now left | exact Hcur].
  - split; [now apply ok_Configure|]. now apply current_Configure.
  - split; [exact Hc|]. now apply (tables_current_fields g).
  - split; [exact Hc | exact Hcur].
Qed.

Lemma current_run_all (acts : list action) (g : Globals) :
  conversion_ok g -> tables_current g -> mode_kept acts g ->
  conversion_ok (run_all acts g) /\ tables_current (run_all acts g).
Proof.
  revert g. induction acts as [|act acts IH]; intros g Hc Hcur Hkept.
  - now split.
  - destruct Hkept as [Hmode Hrest]. simpl.
    destruct (current_run act g Hc Hcur Hmode) as [Hc' Hcur'].
    now apply IH.
Qed.

(** The package after [Configure(&Config{EnableFastArithmetic: true,
    DefaultMode: ModeStrict})] on a fresh start. *)
Definition strict_after_tables : Globals :=
  Configure (Config.mk true false ModeStrict ArithmeticAuto) initial.

(** C3: the code breaks the equivalence of table and algorithm.
    [Configure] with fast arithmetic and Strict as the default mode builds
    the tables under the old default mode, Default, and then sets the new
    one; the tables are never rebuilt.  For 448 * 448 the table holds the
    saturated product, positive infinity, which is what [mulAlgorithmic]
    returned before the call.  After the call the encoder reports an
    overflow for that product, [ToFloat8] drops the error, and
    [mulAlgorithmic] returns the byte 0: the two paths of [Mul] disagree. *)
Lemma stale_tables_after_Configure :
  reachable strict_after_tables /\
  addTable strict_after_tables <> None /\
  in_u8 MaxValue /\
  MulWithMode strict_after_tables MaxValue MaxValue ArithmeticAuto =
    PositiveInfinity /\
  mulAlgorithmic strict_after_tables MaxValue MaxValue = PositiveZero /\
  MulWithMode strict_after_tables MaxValue MaxValue ArithmeticAuto <>
    mulAlgorithmic strict_after_tables MaxValue MaxValue /\
  mulAlgorithmic initial MaxValue MaxValue = PositiveInfinity /\
  fst (ToFloat8WithMode
         (F32.mul (toFloat32Algorithmic MaxValue)
                  (toFloat32Algorithmic MaxValue)) ModeStrict) = 0 /\
  snd (ToFloat8WithMode
         (F32.mul (toFloat32Algorithmic MaxValue)
                  (toFloat32Algorithmic MaxValue)) ModeStrict) <> None.
Proof.
  assert (Htable :
    MulWithMode strict_after_tables MaxValue MaxValue ArithmeticAuto =
    PositiveInfinity).
  { change (MulWithMode strict_after_tables MaxValue MaxValue ArithmeticAuto)
      with (index 0 (t_mul (build_tables initial))
              (table_index MaxValue MaxValue)).
    rewrite index_t_mul by (unfold in_u8, MaxValue; lia).
    vm_compute. reflexivity. }
  assert (Halg :
    mulAlgorithmic strict_after_tables MaxValue MaxValue = PositiveZero).
  { change (mulAlgorithmic strict_after_tables MaxValue MaxValue)
      with (mulAlgorithmic
              (mkGlobals ModeStrict ArithmeticAuto None None None None None)
              MaxValue MaxValue).
    vm_compute. reflexivity. }
  assert (Hreach : reachable strict_after_tables)
    by apply (reachable_run (DoConfigure _)), reachable_initial.
  assert (Hpresent : addTable strict_after_tables <> None)
    by (change (Some (t_add (build_tables initial)) <> None); discriminate).
  assert (Hmax : in_u8 MaxValue) by (unfold in_u8, MaxValue; lia).
  assert (Hdiff :
    MulWithMode strict_after_tables MaxValue MaxValue ArithmeticAuto <>
    mulAlgorithmic strict_after_tables MaxValue MaxValue)
    by (rewrite Htable, Halg; discriminate).
  assert (Hbefore : mulAlgorithmic initial MaxValue MaxValue =
                    PositiveInfinity) by (vm_compute; reflexivity).
  assert (Hvalue :
    fst (ToFloat8WithMode
           (F32.mul (toFloat32Algorithmic MaxValue)
                    (toFloat32Algorithmic MaxValue)) ModeStrict) = 0)
    by (vm_compute; reflexivity).
  assert (Herror :
    snd (ToFloat8WithMode
           (F32.mul (toFloat32Algorithmic MaxValue)
                    (toFloat32Algorithmic MaxValue)) ModeStrict) <> None)
    by (vm_compute; discriminate).
  exact (conj Hreach (conj Hpresent (conj Hmax
          (conj Htable (conj Halg (conj Hdiff
            (conj Hbefore (conj Hvalue Herror)))))))).
Qed.

(** Where the equivalence does hold: once [EnableFastArithmetic] has built
    the operator tables, and for as long as the default conversion mode
    stays as strict as it was at the build (it keeps its value, or changes
    between Default and Fast) through whatever the package is asked to do
    next, for every pair of operands and each of the four operators the
    table-dispatched result, in whichever arithmetic mode, is the
    algorithmic result for that pair. *)
Theorem table_dispatch_is_algorithmic
    (g : Globals) (acts : list action) (a b : Float8) (mode : ArithmeticMode) :
  reachable g -> addTable g = None ->
  mode_kept acts (EnableFastArithmetic g) ->
  in_u8 a -> in_u8 b ->
  let g' := run_all acts (EnableFastArithmetic g) in
  AddWithMode g' a b mode = addAlgorithmic g' a b /\
  SubWithMode g' a b mode = subAlgorithmic g' a b /\
  MulWithMode g' a b mode = mulAlgorithmic g' a b /\
  DivWithMode g' a b mode = divAlgorithmic g' a b.
Proof.
  intros Hg Habsent Hkept Ha Hb g'.
  apply reachable_ok in Hg as [Hc _].
  assert (Hstart : conversion_ok (EnableFastArithmetic g) /\
                   tables_current (EnableFastArithmetic g)).
  { unfold EnableFastArithmetic, initArithmeticTables. rewrite Habsent.
    split; [exact Hc|]. right. exists g. now repeat split. }
  destruct Hstart as [Hc1 Hcur1].
  destruct (current_run_all acts _ Hc1 Hcur1 Hkept) as [Hc' Hcur'].
  now apply current_dispatch.
Qed.

(** The package after [EnableFastArithmetic], [EnableFastConversion] and a
    change of the default conversion mode from Default to Fast. *)
Definition fast_after_tables : Globals :=
  run_all [DoEnableFastConversion; SetDefaultConversionMode ModeFast]
          (EnableFastArithmetic initial).

Lemma table_dispatch_is_algorithmic_witness :
  AddWithMode fast_after_tables 0x38 0x40 ArithmeticAuto =
    addAlgorithmic fast_after_tables 0x38 0x40 /\
  SubWithMode fast_after_tables 0x38 0x40 ArithmeticAuto =
    subAlgorithmic fast_after_tables 0x38 0x40 /\
  MulWithMode fast_after_tables 0x38 0x40 ArithmeticAuto =
    mulAlgorithmic fast_after_tables 0x38 0x40 /\
  DivWithMode fast_after_tables 0x38 0x40 ArithmeticAuto =
    divAlgorithmic fast_after_tables 0x38 0x40.
Proof.
  apply (table_dispatch_is_algorithmic initial
           [DoEnableFastConversion; SetDefaultConversionMode ModeFast]
           0x38 0x40 ArithmeticAuto).
  - apply reachable_initial.
  - reflexivity.
  - cbn [mode_kept]. split; [reflexivity|split; [reflexivity|exact I]].
  - unfold in_u8. lia.
  - unfold in_u8. lia.
Defined.

(** ** The codec *)

Definition roundtrip_check (v : Float8) : bool :=
  let r := ToFloat8WithMode (toFloat32Algorithmic v) ModeDefault in
  match snd r with
  | Some _ => false
  | None =>
      if (v =? 0x7F) || (v =? 0xFF) then IsNaN (fst r) else fst r =? v
  end.

Lemma roundtrip_algorithmic (v : Float8) :
  in_u8 v -> roundtrip_check v = true.
Proof. apply forall_u8. vm_compute. reflexivity. Qed.

(** C1: decoding any of the 256 bit patterns and encoding the result in
    Default mode gives the pattern back, without error, unless the pattern is
    one of the two NaN patterns 0x7F and 0xFF; for those the result is a NaN
    pattern. *)
Theorem encode_decode_roundtrip (g : Globals) (v : Float8) :
  reachable g -> in_u8 v ->
  (v <> 0x7F -> v <> 0xFF ->
   ToFloat8WithMode (ToFloat32 g v) ModeDefault = (v, None)) /\
  (v = 0x7F \/ v = 0xFF ->
   IsNaN (fst (ToFloat8WithMode (ToFloat32 g v) ModeDefault)) = true).
Proof.
  intros Hg Hv. apply reachable_ok in Hg as [Hc _].
  rewrite ToFloat32_algorithmic by done.
  pose proof (roundtrip_algorithmic v Hv) as Hcheck.
  unfold roundtrip_check in Hcheck.
  destruct (ToFloat8WithMode (toFloat32Algorithmic v) ModeDefault)
    as [r [e|]]; simpl in Hcheck; [discriminate|].
  split.
  - intros H7F HFF.
    apply Z.eqb_neq in H7F, HFF. rewrite H7F, HFF in Hcheck. simpl in Hcheck.
    apply Z.eqb_eq in Hcheck. now subst.
  - intros [-> | ->]; exact Hcheck.
Qed.

Lemma encode_decode_roundtrip_witness :
  (0x3C <> 0x7F -> 0x3C <> 0xFF ->
   ToFloat8WithMode (ToFloat32 initial 0x3C) ModeDefault = (0x3C, None)) /\
  (0x3C = 0x7F \/ 0x3C = 0xFF ->
   IsNaN (fst (ToFloat8WithMode (ToFloat32 initial 0x3C) ModeDefault)) = true).
Proof.
  apply (encode_decode_roundtrip initial 0x3C).
  - apply reachable_initial.
  - unfold in_u8. lia.
Defined.

(** ** binary32 arithmetic *)

Module F32Facts.

Lemma add_comm (x y : float32) : F32.add x y = F32.add y x.
Proof.
  unfold F32.add.
  destruct x as [sx|sx| |sx mx ex], y as [sy|sy| |sy my ey];
    try reflexivity; try (now destruct sx, sy).
  unfold SFadd. now rewrite Z.min_comm, Z.add_comm.
Qed.

Lemma mul_comm (x y : float32) : F32.mul x y = F32.mul y x.
Proof.
  unfold F32.mul.
  destruct x as [sx|sx| |sx mx ex], y as [sy|sy| |sy my ey];
    try reflexivity; unfold SFmul; rewrite (xorb_comm sx sy);
    try reflexivity.
  now rewrite Pos.mul_comm, Z.add_comm.
Qed.

(** Subtraction is addition of the opposite. *)
Lemma sub_add_opp (x y : float32) : F32.sub x y = F32.add x (SFopp y).
Proof.
  unfold F32.sub, F32.add.
  destruct x as [sx|sx| |sx mx ex], y as [sy|sy| |sy my ey];
    try reflexivity; now destruct sx, sy.
Qed.

Lemma add_nan_l (y : float32) : F32.add F32.NaN y = F32.NaN.
Proof. reflexivity. Qed.

Lemma add_nan_r (x : float32) : F32.add x F32.NaN = F32.NaN.
Proof. now destruct x. Qed.

Lemma sub_nan_l (y : float32) : F32.sub F32.NaN y = F32.NaN.
Proof. reflexivity. Qed.

Lemma sub_nan_r (x : float32) : F32.sub x F32.NaN = F32.NaN.
Proof. now destruct x. Qed.

(** Structural equality, to compare decoded values by computation. *)
Definition same (x y : float32) : bool :=
  match x, y with
  | S754_zero sx, S754_zero sy => Bool.eqb sx sy
  | S754_infinity sx, S754_infinity sy => Bool.eqb sx sy
  | S754_nan, S754_nan => true
  | S754_finite sx mx ex, S754_finite sy my ey =>
      Bool.eqb sx sy && (mx =? my)%positive && (ex =? ey)
  | _, _ => false
  end.

Lemma same_eq (x y : float32) : same x y = true -> x = y.
Proof.
  destruct x as [sx|sx| |sx mx ex], y as [sy|sy| |sy my ey];
    simpl; try discriminate; try reflexivity.
  - intros H. apply Bool.eqb_prop in H. now subst.
  - intros H. apply Bool.eqb_prop in H. now subst.
  - intros H. apply andb_prop in H as [H He]. apply andb_prop in H as [Hs Hm].
    apply Bool.eqb_prop in Hs. apply Pos.eqb_eq in Hm. apply Z.eqb_eq in He.
    now subst.
Qed.

End F32Facts.

(** ** Classification of bit patterns *)

Lemma IsZero_true (f : Float8) :
  IsZero f = true <-> f = PositiveZero \/ f = NegativeZero.
Proof. unfold IsZero. rewrite orb_true_iff, !Z.eqb_eq. tauto. Qed.

Lemma IsInf_true (f : Float8) :
  IsInf f = true <-> f = PositiveInfinity \/ f = NegativeInfinity.
Proof. unfold IsInf. rewrite orb_true_iff, !Z.eqb_eq. tauto. Qed.

Lemma IsInf_not_zero (f : Float8) : IsInf f = true -> IsZero f = false.
Proof. intros [-> | ->]%IsInf_true; reflexivity. Qed.

Lemma IsInf_not_nan (f : Float8) : IsInf f = true -> IsNaN f = false.
Proof. intros [-> | ->]%IsInf_true; reflexivity. Qed.

Lemma IsZero_not_nan (f : Float8) : IsZero f = true -> IsNaN f = false.
Proof. intros [-> | ->]%IsZero_true; reflexivity. Qed.

Lemma IsNaN_true (f : Float8) :
  in_u8 f -> IsNaN f = true <-> f = 0x7F \/ f = 0xFF.
Proof.
  intros Hf. split.
  - revert f Hf.
    enough (Hall : forall f, in_u8 f ->
              implb (IsNaN f) ((f =? 0x7F) || (f =? 0xFF)) = true).
    { intros f Hf Hnan. specialize (Hall f Hf). rewrite Hnan in Hall.
      simpl in Hall. apply orb_true_iff in Hall. now rewrite !Z.eqb_eq in Hall. }
    apply forall_u8. vm_compute. reflexivity.
  - intros [-> | ->]; reflexivity.
Qed.

(** The values [IsFinite] accepts are neither infinite nor NaN; the
    operators ask for no more when they treat an operand as finite. *)
Lemma IsFinite_not_special (f : Float8) :
  in_u8 f -> IsFinite f = true -> IsInf f = false /\ IsNaN f = false.
Proof.
  revert f.
  enough (Hall : forall f, in_u8 f ->
            implb (IsFinite f) (negb (IsInf f) && negb (IsNaN f)) = true).
  { intros f Hf Hfin. specialize (Hall f Hf). rewrite Hfin in Hall.
    simpl in Hall. apply andb_prop in Hall as [Hi Hn].
    now rewrite negb_true_iff in Hi, Hn. }
  apply forall_u8. vm_compute. reflexivity.
Qed.

(** The sign bit of a pattern, as the operators test it: [f&SignMask != 0]. *)
Definition sign_bit (f : Float8) : bool := negb (Z.land f SignMask =? 0).

(** ** Negation *)

Lemma testbit_SignMask (i : Z) : Z.testbit SignMask i = (i =? 7).
Proof.
  destruct (Z.ltb_spec i 0) as [Hneg|Hpos].
  - rewrite Z.testbit_neg_r by done. symmetry. apply Z.eqb_neq. lia.
  - change SignMask with (2 ^ 7). rewrite Z.pow2_bits_eqb by lia.
    apply Z.eqb_sym.
Qed.

(** C10: negation returns both zero patterns unchanged, and on every other
    pattern it is the exclusive-or with the sign mask: bit 7 is flipped and
    every other bit is kept. *)
Theorem Neg_flips_sign_bit_except_zero (f : Float8) (i : Z) :
  Neg PositiveZero = PositiveZero /\
  Neg NegativeZero = NegativeZero /\
  Neg f = (if IsZero f then f else Z.lxor f SignMask) /\
  Z.testbit (Neg f) i =
    (if IsZero f then Z.testbit f i else xorb (Z.testbit f i) (i =? 7)).
Proof.
  repeat split.
  unfold Neg. destruct (IsZero f); [reflexivity|].
  now rewrite Z.lxor_spec, testbit_SignMask.
Qed.

Lemma Neg_in_u8 (f : Float8) : in_u8 f -> in_u8 (Neg f).
Proof.
  revert f.
  enough (Hall : forall f, in_u8 f ->
            (0 <=? Neg f) && (Neg f <? 256) = true).
  { intros f Hf. specialize (Hall f Hf). unfold in_u8. lia. }
  apply forall_u8. vm_compute. reflexivity.
Qed.

(** ** NaN operands *)

(** C2: an infinite operand wins over a NaN operand in [addAlgorithmic] and
    in [subAlgorithmic], which test for infinities and never for NaN: the sum
    and the difference of NaN and an infinity are infinities, not NaN. *)
Theorem add_sub_nan_with_infinity (g : Globals) :
  IsNaN NaN = true /\
  addAlgorithmic g NaN PositiveInfinity = PositiveInfinity /\
  addAlgorithmic g PositiveInfinity NaN = PositiveInfinity /\
  subAlgorithmic g NaN PositiveInfinity = NegativeInfinity /\
  subAlgorithmic g PositiveInfinity NaN = PositiveInfinity /\
  IsNaN PositiveInfinity = false /\
  IsNaN NegativeInfinity = false.
Proof. repeat split. Qed.

(** Multiplication and division test for NaN first. *)
Lemma mul_div_nan (g : Globals) (a b : Float8) :
  IsNaN a = true \/ IsNaN b = true ->
  IsNaN (mulAlgorithmic g a b) = true /\
  IsNaN (divAlgorithmic g a b) = true.
Proof.
  intros Hnan. unfold mulAlgorithmic, divAlgorithmic.
  assert (IsNaN a || IsNaN b = true) as ->
    by (apply orb_true_iff; exact Hnan).
  now split.
Qed.

Lemma toFloat32Algorithmic_nan (f : Float8) :
  IsNaN f = true -> toFloat32Algorithmic f = F32.NaN.
Proof.
  intros Hnan. unfold toFloat32Algorithmic. rewrite Hnan.
  destruct (IsZero f) eqn:Hz; [|reflexivity].
  apply IsZero_not_nan in Hz. congruence.
Qed.

Lemma IsNaN_not_special (f : Float8) :
  IsNaN f = true -> IsZero f = false /\ IsInf f = false.
Proof.
  intros Hnan. split.
  - destruct (IsZero f) eqn:Hz; [|reflexivity].
    apply IsZero_not_nan in Hz. congruence.
  - destruct (IsInf f) eqn:Hi; [|reflexivity].
    apply IsInf_not_nan in Hi. congruence.
Qed.

(** Addition and subtraction give NaN for a NaN operand when the other
    operand is not an infinity and the default conversion mode is not
    Strict (in Strict mode [ToFloat8] drops the error and returns 0). *)
Lemma add_sub_nan_without_infinity (g : Globals) (a b : Float8) :
  conversion_ok g -> in_u8 a -> in_u8 b ->
  is_strict (DefaultConversionMode g) = false ->
  IsInf a = false -> IsInf b = false ->
  IsNaN a = true \/ IsNaN b = true ->
  IsNaN (addAlgorithmic g a b) = true /\
  IsNaN (subAlgorithmic g a b) = true.
Proof.
  intros Hc Ha Hb Hmode Hia Hib Hnan.
  assert (Henc : ToFloat8 g F32.NaN = NaN).
  { unfold ToFloat8, ToFloat8WithMode. simpl. now rewrite Hmode. }
  assert (Hneg : forall f, in_u8 f -> IsNaN f = true -> IsNaN (Neg f) = true).
  { intros f Hf [-> | ->]%IsNaN_true; [reflexivity|reflexivity|exact Hf]. }
  unfold addAlgorithmic, subAlgorithmic.
  rewrite Hia, Hib, !ToFloat32_algorithmic by done. simpl.
  destruct Hnan as [Hnan|Hnan];
    destruct (IsNaN_not_special _ Hnan) as [Hz _]; rewrite Hz;
    rewrite (toFloat32Algorithmic_nan _ Hnan).
  - rewrite F32Facts.add_nan_l, F32Facts.sub_nan_l, Henc.
    destruct (IsZero b); now split.
  - rewrite F32Facts.add_nan_r, F32Facts.sub_nan_r, Henc.
    destruct (IsZero a); split; auto.
Qed.

(** ** Division: the special-value matrix *)

Definition infinity_of_sign (negative : bool) : Float8 :=
  if negative then NegativeInfinity else PositiveInfinity.

Definition zero_of_sign (negative : bool) : Float8 :=
  if negative then NegativeZero else PositiveZero.

(** binary32 1.0 *)
Definition one32 : float32 := F32.Float32frombits 0x3F800000.

Lemma divAlgorithmic_special (g : Globals) (a b : Float8) :
  IsNaN a = false -> IsNaN b = false ->
  (IsZero a = true -> IsZero b = true ->
   IsNaN (divAlgorithmic g a b) = true) /\
  (IsInf a = true -> IsInf b = true ->
   IsNaN (divAlgorithmic g a b) = true) /\
  (IsInf a = false -> IsZero a = false -> IsZero b = true ->
   divAlgorithmic g a b = infinity_of_sign (xorb (sign_bit a) (sign_bit b))) /\
  (IsInf a = true -> IsInf b = false -> IsZero b = false ->
   divAlgorithmic g a b = infinity_of_sign (xorb (sign_bit a) (sign_bit b))) /\
  (IsZero a = true -> IsInf b = false -> IsZero b = false ->
   divAlgorithmic g a b = zero_of_sign (xorb (sign_bit a) (sign_bit b))) /\
  (IsInf a = false -> IsInf b = true ->
   divAlgorithmic g a b = zero_of_sign (xorb (sign_bit a) (sign_bit b))).
Proof.
  intros Hna Hnb. unfold divAlgorithmic, sign_bit. rewrite Hna, Hnb. simpl.
  repeat split.
  - intros Ha Hb. now rewrite Ha, Hb.
  - intros Ha Hb.
    now rewrite (IsInf_not_zero a Ha), (IsInf_not_zero b Hb), Ha, Hb.
  - intros _ Ha Hb. rewrite Ha, Hb.
    now destruct (Z.land a SignMask =? 0), (Z.land b SignMask =? 0).
  - intros Ha Hib Hb. rewrite (IsInf_not_zero a Ha), Ha, Hib, Hb.
    now destruct (Z.land a SignMask =? 0), (Z.land b SignMask =? 0).
  - intros Ha _ Hb. rewrite Ha, Hb.
    now destruct (Z.land a SignMask =? 0), (Z.land b SignMask =? 0).
  - intros Hia Hb. rewrite (IsInf_not_zero b Hb), Hia, Hb.
    destruct (IsZero a);
      now destruct (Z.land a SignMask =? 0), (Z.land b SignMask =? 0).
Qed.

(** In every state of the package [DivWithMode] returns what
    [divAlgorithmic] returns in some state: the current one, or the one in
    which the tables were built. *)
Lemma DivWithMode_algorithmic (g : Globals) (a b : Float8) mode :
  reachable g -> in_u8 a -> in_u8 b ->
  exists g0, DivWithMode g a b mode = divAlgorithmic g0 a b.
Proof.
  intros Hg Ha Hb. apply reachable_ok in Hg as [_ Ht].
  unfold DivWithMode.
  destruct (uses_table mode); [|now exists g].
  destruct Ht as [(_ & _ & _ & Hd)|(g0 & _ & _ & _ & _ & Hd)]; rewrite Hd.
  - now exists g.
  - exists g0. now apply index_t_div.
Qed.

Lemma ToFloat8_one (g : Globals) : ToFloat8 g one32 = 0x38.
Proof. unfold ToFloat8. now destruct (DefaultConversionMode g). Qed.

(** C5: for operands that are not NaN, in every state of the package,
    [Div] gives NaN for zero/zero and for infinity/infinity; the infinity
    whose sign is the exclusive-or of the operand signs for a nonzero
    non-infinite dividend over zero and for an infinite dividend over a
    nonzero non-infinite divisor; the zero of that sign for a zero dividend
    over a nonzero non-infinite divisor and for a non-infinite dividend over
    an infinity.  Dividing the encoding of 1.0 by negative zero gives 0xF8.
    "Finite" is read as the operator reads it, neither infinite nor NaN,
    which holds of every pattern that [IsFinite] accepts
    ([IsFinite_not_special]). *)
Theorem Div_special_values (g : Globals) (a b : Float8) :
  reachable g -> in_u8 a -> in_u8 b ->
  IsNaN a = false -> IsNaN b = false ->
  (IsZero a = true -> IsZero b = true -> IsNaN (Div g a b) = true) /\
  (IsInf a = true -> IsInf b = true -> IsNaN (Div g a b) = true) /\
  (IsInf a = false -> IsZero a = false -> IsZero b = true ->
   Div g a b = infinity_of_sign (xorb (sign_bit a) (sign_bit b))) /\
  (IsInf a = true -> IsInf b = false -> IsZero b = false ->
   Div g a b = infinity_of_sign (xorb (sign_bit a) (sign_bit b))) /\
  (IsZero a = true -> IsInf b = false -> IsZero b = false ->
   Div g a b = zero_of_sign (xorb (sign_bit a) (sign_bit b))) /\
  (IsInf a = false -> IsInf b = true ->
   Div g a b = zero_of_sign (xorb (sign_bit a) (sign_bit b))) /\
  Div g (ToFloat8 g one32) NegativeZero = 0xF8.
Proof.
  intros Hg Ha Hb Hna Hnb.
  destruct (DivWithMode_algorithmic g a b (DefaultArithmeticMode g))
    as [g0 Hdiv]; [done..|].
  unfold Div at 1 2 3 4 5 6. rewrite Hdiv.
  pose proof (divAlgorithmic_special g0 a b Hna Hnb) as Hspecial.
  repeat split; try apply Hspecial.
  rewrite ToFloat8_one.
  destruct (DivWithMode_algorithmic g 0x38 NegativeZero
              (DefaultArithmeticMode g)) as [g1 Hone];
    [exact Hg | unfold in_u8; lia | unfold in_u8, NegativeZero; lia |].
  unfold Div. now rewrite Hone.
Qed.

Lemma Div_special_values_witness :
  (IsZero 0x38 = true -> IsZero 0x80 = true ->
   IsNaN (Div initial 0x38 0x80) = true) /\
  (IsInf 0x38 = true -> IsInf 0x80 = true ->
   IsNaN (Div initial 0x38 0x80) = true) /\
  (IsInf 0x38 = false -> IsZero 0x38 = false -> IsZero 0x80 = true ->
   Div initial 0x38 0x80 =
   infinity_of_sign (xorb (sign_bit 0x38) (sign_bit 0x80))) /\
  (IsInf 0x38 = true -> IsInf 0x80 = false -> IsZero 0x80 = false ->
   Div initial 0x38 0x80 =
   infinity_of_sign (xorb (sign_bit 0x38) (sign_bit 0x80))) /\
  (IsZero 0x38 = true -> IsInf 0x80 = false -> IsZero 0x80 = false ->
   Div initial 0x38 0x80 =
   zero_of_sign (xorb (sign_bit 0x38) (sign_bit 0x80))) /\
  (IsInf 0x38 = false -> IsInf 0x80 = true ->
   Div initial 0x38 0x80 =
   zero_of_sign (xorb (sign_bit 0x38) (sign_bit 0x80))) /\
  Div initial (ToFloat8 initial one32) NegativeZero = 0xF8.
Proof.
  apply (Div_special_values initial 0x38 0x80).
  - apply reachable_initial.
  - unfold in_u8. lia.
  - unfold in_u8. lia.
  - reflexivity.
  - reflexivity.
Defined.

(** ** Addition and multiplication *)

(** C6: on the two zeros [addAlgorithmic] returns its second operand, so the
    sum of +0 and -0 is -0 in one order and +0 in the other; both operands
    are finite. *)
Theorem add_signed_zeros_order (g : Globals) :
  IsFinite PositiveZero = true /\
  IsFinite NegativeZero = true /\
  addAlgorithmic g PositiveZero NegativeZero = NegativeZero /\
  addAlgorithmic g NegativeZero PositiveZero = PositiveZero /\
  NegativeZero <> PositiveZero.
Proof. repeat split. discriminate. Qed.

(** Multiplication commutes on every pair of patterns. *)
Lemma mulAlgorithmic_comm (g : Globals) (a b : Float8) :
  mulAlgorithmic g a b = mulAlgorithmic g b a.
Proof.
  unfold mulAlgorithmic.
  rewrite (orb_comm (IsNaN b)), (orb_comm (IsZero b)), (orb_comm (IsInf b)).
  rewrite (orb_comm (IsInf b && IsZero a)).
  rewrite (andb_comm (IsInf b)), (andb_comm (IsZero b)).
  rewrite (Z.mul_comm (if negb (Z.land b SignMask =? 0) then -1 else 1)).
  now rewrite F32Facts.mul_comm.
Qed.

(** Addition commutes on every pair other than the two zeros of opposite
    sign. *)
Lemma addAlgorithmic_comm (g : Globals) (a b : Float8) :
  IsZero a && IsZero b && negb (a =? b) = false ->
  addAlgorithmic g a b = addAlgorithmic g b a.
Proof.
  intros Hzeros. unfold addAlgorithmic.
  destruct (IsZero a) eqn:Hza, (IsZero b) eqn:Hzb; try reflexivity.
  - simpl in Hzeros. apply negb_false_iff, Z.eqb_eq in Hzeros. now subst.
  - destruct (IsInf a) eqn:Hia.
    + apply IsInf_true in Hia as [-> | ->];
        destruct (IsInf b) eqn:Hib;
        try (apply IsInf_true in Hib as [-> | ->]; reflexivity);
        apply orb_false_iff in Hib as [Hp Hn]; simpl;
        now rewrite ?Hp, ?Hn.
    + destruct (IsInf b) eqn:Hib.
      * apply orb_false_iff in Hia as [Hp Hn].
        apply IsInf_true in Hib as [-> | ->]; simpl; now rewrite ?Hp, ?Hn.
      * simpl. now rewrite F32Facts.add_comm.
Qed.

(** C7, counterexample: negative zero is finite and adding positive zero to
    it gives positive zero, not the operand. *)
Lemma add_positive_zero_not_identity :
  ~ (forall x : Float8, in_u8 x -> IsFinite x = true ->
       addAlgorithmic initial x PositiveZero = x).
Proof.
  intros Hid.
  specialize (Hid NegativeZero).
  assert (Hfalse : PositiveZero = NegativeZero).
  { apply Hid; [unfold in_u8, NegativeZero; lia | reflexivity]. }
  discriminate Hfalse.
Qed.

(** C7, amended: positive zero is a right identity of addition for every
    pattern other than negative zero, finite or not; the sum of negative zero
    and positive zero is positive zero; the sum of two negative zeros is
    negative zero and the sum of two positive zeros is positive zero. *)
Theorem add_positive_zero_right (g : Globals) (x : Float8) :
  addAlgorithmic g x PositiveZero =
    (if x =? NegativeZero then PositiveZero else x) /\
  addAlgorithmic g NegativeZero NegativeZero = NegativeZero /\
  addAlgorithmic g PositiveZero PositiveZero = PositiveZero.
Proof.
  repeat split. unfold addAlgorithmic.
  destruct (IsZero x) eqn:Hz.
  - apply IsZero_true in Hz as [-> | ->]; reflexivity.
  - simpl. apply orb_false_iff in Hz as [_ Hn]. now rewrite Hn.
Qed.

(** ** Subtraction *)

Definition neg_check (b : Float8) : bool :=
  IsZero b ||
  (negb (IsZero (Neg b)) &&
   Bool.eqb (IsInf (Neg b)) (IsInf b) &&
   Bool.eqb (Neg b =? PositiveInfinity) (b =? NegativeInfinity) &&
   Bool.eqb (Neg b =? NegativeInfinity) (b =? PositiveInfinity) &&
   F32Facts.same (toFloat32Algorithmic (Neg b))
                 (SFopp (toFloat32Algorithmic b))).

(** Negation of a nonzero pattern: the class is kept, the infinities are
    swapped and the decoded value is the opposite. *)
Lemma Neg_nonzero (b : Float8) :
  in_u8 b -> IsZero b = false ->
  IsZero (Neg b) = false /\
  IsInf (Neg b) = IsInf b /\
  (Neg b =? PositiveInfinity) = (b =? NegativeInfinity) /\
  (Neg b =? NegativeInfinity) = (b =? PositiveInfinity) /\
  toFloat32Algorithmic (Neg b) = SFopp (toFloat32Algorithmic b).
Proof.
  intros Hb Hz.
  assert (Hcheck : neg_check b = true)
    by (clear Hz; revert b Hb; apply forall_u8; vm_compute; reflexivity).
  unfold neg_check in Hcheck. rewrite Hz in Hcheck. simpl in Hcheck.
  repeat (apply andb_prop in Hcheck as [Hcheck ?]).
  repeat split.
  - now apply negb_true_iff.
  - now apply Bool.eqb_prop.
  - now apply Bool.eqb_prop.
  - now apply Bool.eqb_prop.
  - now apply F32Facts.same_eq.
Qed.

(** C8, counterexample: with a negative zero minuend and a positive zero
    subtrahend the difference is the minuend, negative zero, while the sum
    with the negated subtrahend is positive zero. *)
Lemma sub_not_add_neg_on_zeros :
  ~ (forall a b : Float8, in_u8 a -> in_u8 b ->
       subAlgorithmic initial a b = addAlgorithmic initial a (Neg b)).
Proof.
  intros Hsame.
  specialize (Hsame NegativeZero PositiveZero).
  assert (Hfalse : NegativeZero = PositiveZero).
  { apply Hsame; unfold in_u8, NegativeZero, PositiveZero; lia. }
  discriminate Hfalse.
Qed.

(** C8, amended: in every state of the package, for every pair of operands
    other than two zeros of opposite sign, infinities and NaN included,
    subtraction is addition of the negated subtrahend; the difference of
    negative zero and positive zero is negative zero. *)
Theorem sub_is_add_neg (g : Globals) (a b : Float8) :
  reachable g -> in_u8 a -> in_u8 b ->
  IsZero a && IsZero b && negb (a =? b) = false ->
  subAlgorithmic g a b = addAlgorithmic g a (Neg b) /\
  subAlgorithmic g NegativeZero PositiveZero = NegativeZero.
Proof.
  intros Hg Ha Hb Hzeros. split; [|reflexivity].
  apply reachable_ok in Hg as [Hc _].
  unfold subAlgorithmic, addAlgorithmic.
  destruct (IsZero b) eqn:Hzb.
  - assert (Neg b = b) as -> by (unfold Neg; now rewrite Hzb).
    rewrite Hzb.
    destruct (IsZero a) eqn:Hza; [|reflexivity].
    simpl in Hzeros. now apply negb_false_iff, Z.eqb_eq in Hzeros.
  - destruct (Neg_nonzero b Hb Hzb) as (Hnz & Hni & Hnp & Hnn & Hdec).
    rewrite Hnz, Hni, Hnp, Hnn.
    destruct (IsZero a) eqn:Hza; [reflexivity|].
    destruct (IsInf a) eqn:Hia.
    + rewrite (Z.eqb_sym a b).
      apply IsInf_true in Hia as [-> | ->];
        now destruct (b =? PositiveInfinity), (b =? NegativeInfinity).
    + apply orb_false_iff in Hia as [Hp Hn]. rewrite Hp, Hn.
      rewrite andb_false_r. simpl.
      destruct (IsInf b); [reflexivity|].
      rewrite !ToFloat32_algorithmic by (done || now apply Neg_in_u8).
      now rewrite Hdec, F32Facts.sub_add_opp.
Qed.

Lemma sub_is_add_neg_witness :
  subAlgorithmic initial 0x40 0x38 = addAlgorithmic initial 0x40 (Neg 0x38) /\
  subAlgorithmic initial NegativeZero PositiveZero = NegativeZero.
Proof.
  apply (sub_is_add_neg initial 0x40 0x38).
  - apply reachable_initial.
  - unfold in_u8. lia.
  - unfold in_u8. lia.
  - reflexivity.
Defined.

(** ** Ordering *)

Lemma Less_initial (g : Globals) (a b : Float8) :
  conversion_ok g -> in_u8 a -> in_u8 b -> Less g a b = Less initial a b.
Proof.
  intros Hc Ha Hb. unfold Less.
  rewrite !ToFloat32_algorithmic by (done || now left). reflexivity.
Qed.

(** [Less] on operands given with their decoded values, so that the 256
    patterns are decoded once when all pairs are compared. *)
Definition less_decoded (p q : Float8 * float32) : bool :=
  let '(a, fa) := p in
  let '(b, fb) := q in
  if IsNaN a || IsNaN b then false
  else if IsZero a && IsZero b then false
  else
    let aInf := IsInf a in
    let bInf := IsInf b in
    if aInf && bInf then (a =? NegativeInfinity) && (b =? PositiveInfinity)
    else if aInf then a =? NegativeInfinity
    else if bInf then b =? PositiveInfinity
    else F32.ltb fa fb.

Definition decoded (a : Float8) : Float8 * float32 :=
  (a, toFloat32Algorithmic a).

Lemma Less_decoded (a b : Float8) :
  Less initial a b = less_decoded (decoded a) (decoded b).
Proof. reflexivity. Qed.

Definition order_check (p q : Float8 * float32) : bool :=
  IsNaN (fst p) || IsNaN (fst q) || (IsZero (fst p) && IsZero (fst q)) ||
  (fst p =? fst q) || xorb (less_decoded p q) (less_decoded q p).

Definition all_pairs {A : Type} (check : A -> A -> bool) (ds : list A) : bool :=
  forallb (fun p => forallb (check p) ds) ds.

Lemma all_pairs_true {A : Type} (check : A -> A -> bool) (ds : list A) :
  all_pairs check ds = true ->
  forall p q, In p ds -> In q ds -> check p q = true.
Proof.
  unfold all_pairs. intros Hall p q Hp Hq.
  rewrite forallb_forall in Hall. specialize (Hall p Hp).
  rewrite forallb_forall in Hall. exact (Hall q Hq).
Qed.

Lemma order_check_table :
  all_pairs order_check (map decoded (seqZ 0 256)) = true.
Proof. vm_compute. reflexivity. Qed.

Lemma order_check_all (a b : Float8) :
  in_u8 a -> in_u8 b -> order_check (decoded a) (decoded b) = true.
Proof.
  intros Ha Hb.
  apply (all_pairs_true order_check _ order_check_table);
    apply in_map, list_elem_of_In, in_u8_seqZ; assumption.
Qed.

(** Two patterns that are not NaN, not both zero and not the same pattern
    are strictly ordered, one way or the other. *)
Lemma Less_total (g : Globals) (a b : Float8) :
  conversion_ok g -> in_u8 a -> in_u8 b ->
  IsNaN a = false -> IsNaN b = false ->
  IsZero a && IsZero b = false -> a <> b ->
  Less g a b = negb (Less g b a).
Proof.
  intros Hc Ha Hb Hna Hnb Hz Hne.
  rewrite !(Less_initial g) by done.
  pose proof (order_check_all a b Ha Hb) as Hcheck.
  unfold order_check in Hcheck. rewrite <- !Less_decoded in Hcheck.
  cbn [fst decoded] in Hcheck.
  apply Z.eqb_neq in Hne. rewrite Hna, Hnb, Hz, Hne in Hcheck.
  simpl in Hcheck.
  now destruct (Less initial a b), (Less initial b a).
Qed.

Lemma Less_zeros (g : Globals) (a b : Float8) :
  IsZero a = true -> IsZero b = true -> Less g a b = false.
Proof.
  intros Ha Hb. unfold Less.
  rewrite (IsZero_not_nan a Ha), (IsZero_not_nan b Hb), Ha, Hb. reflexivity.
Qed.

(** The choices [Min] and [Max] end with, on operands that are neither NaN
    nor infinite. *)
Lemma pick_comm (g : Globals) (a b : Float8) :
  conversion_ok g -> in_u8 a -> in_u8 b ->
  IsNaN a = false -> IsNaN b = false ->
  IsZero a && IsZero b && negb (a =? b) = false ->
  (if Less g a b then a else b) = (if Less g b a then b else a) /\
  (if Less g b a then a else b) = (if Less g a b then b else a).
Proof.
  intros Hc Ha Hb Hna Hnb Hzeros.
  destruct (Z.eqb_spec a b) as [->|Hne]; [now destruct (Less g b b)|].
  rewrite andb_true_r in Hzeros.
  rewrite (Less_total g a b) by done.
  now destruct (Less g b a).
Qed.

(** C9, counterexample: on the two zeros [Min] returns its second operand,
    so the two orders give different bit patterns. *)
Lemma Min_not_commutative_on_zeros :
  ~ (forall a b : Float8, in_u8 a -> in_u8 b ->
       Min initial a b = Min initial b a /\ Max initial a b = Max initial b a).
Proof.
  intros Hcomm.
  destruct (Hcomm PositiveZero NegativeZero) as [Hmin _];
    [unfold in_u8, PositiveZero; lia | unfold in_u8, NegativeZero; lia |].
  discriminate Hmin.
Qed.

(** C9, amended: in every state of the package [Min] and [Max] are
    commutative as bit patterns on every pair other than two zeros of
    opposite sign; on such a pair each returns its second operand; if either
    operand is NaN the result is NaN. *)
Theorem Min_Max_commutative (g : Globals) (a b : Float8) :
  reachable g -> in_u8 a -> in_u8 b ->
  (IsZero a && IsZero b && negb (a =? b) = false ->
   Min g a b = Min g b a /\ Max g a b = Max g b a) /\
  (IsZero a && IsZero b && negb (a =? b) = true ->
   Min g a b = b /\ Max g a b = b) /\
  (IsNaN a = true \/ IsNaN b = true ->
   IsNaN (Min g a b) = true /\ IsNaN (Max g a b) = true).
Proof.
  intros Hg Ha Hb. apply reachable_ok in Hg as [Hc _].
  split; [|split].
  - intros Hzeros. split.
    + unfold Min.
      rewrite (orb_comm (IsNaN b)), (orb_comm (b =? NegativeInfinity)).
      destruct (IsNaN a) eqn:Hna, (IsNaN b) eqn:Hnb; try reflexivity. simpl.
      destruct ((a =? NegativeInfinity) || (b =? NegativeInfinity));
        [reflexivity|].
      destruct (Z.eqb_spec a PositiveInfinity) as [->|_],
               (Z.eqb_spec b PositiveInfinity) as [->|_]; try reflexivity.
      now apply pick_comm.
    + unfold Max, Greater.
      rewrite (orb_comm (IsNaN b)), (orb_comm (b =? PositiveInfinity)).
      destruct (IsNaN a) eqn:Hna, (IsNaN b) eqn:Hnb; try reflexivity. simpl.
      destruct ((a =? PositiveInfinity) || (b =? PositiveInfinity));
        [reflexivity|].
      destruct (Z.eqb_spec a NegativeInfinity) as [->|_],
               (Z.eqb_spec b NegativeInfinity) as [->|_]; try reflexivity.
      now apply pick_comm.
  - intros Hzeros.
    apply andb_prop in Hzeros as [Hz _]. apply andb_prop in Hz as [Hza Hzb].
    unfold Min, Max, Greater.
    rewrite (Less_zeros g a b Hza Hzb), (Less_zeros g b a Hzb Hza).
    apply IsZero_true in Hza as [-> | ->];
      apply IsZero_true in Hzb as [-> | ->]; now split.
  - intros Hnan. apply orb_true_iff in Hnan.
    unfold Min, Max. now rewrite Hnan.
Qed.

Lemma Min_Max_commutative_witness :
  (IsZero 0x38 && IsZero 0x40 && negb (0x38 =? 0x40) = false ->
   Min initial 0x38 0x40 = Min initial 0x40 0x38 /\
   Max initial 0x38 0x40 = Max initial 0x40 0x38) /\
  (IsZero 0x38 && IsZero 0x40 && negb (0x38 =? 0x40) = true ->
   Min initial 0x38 0x40 = 0x40 /\ Max initial 0x38 0x40 = 0x40) /\
  (IsNaN 0x38 = true \/ IsNaN 0x40 = true ->
   IsNaN (Min initial 0x38 0x40) = true /\
   IsNaN (Max initial 0x38 0x40) = true).
Proof.
  apply (Min_Max_commutative initial 0x38 0x40).
  - apply reachable_initial.
  - unfold in_u8. lia.
  - unfold in_u8. lia.
Defined.

(** ** Underflow *)

(** The exponent of a binary32 value moved to the bias of the 8-bit format:
    [exp - Float32Bias + ExponentBias] in [ToFloat8WithMode]. *)
Definition rebiased_exponent (f32 : float32) : Z :=
  Z.land (Z.shiftr (F32.Float32bits f32) 23) 0xFF - Float32Bias + ExponentBias.

Lemma digits2_pos_size (m : positive) : digits2_pos m = Pos.size m.
Proof. induction m; simpl; congruence. Qed.

(** The mantissa and exponent of a valid finite binary32 value. *)
Lemma valid_finite_range (s : bool) (m : positive) (e : Z) :
  F32.valid (S754_finite s m e) = true ->
  Z.pos m < 2 ^ 24 /\
  ((Z.pos m < 2 ^ 23 /\ e = -149) \/ (2 ^ 23 <= Z.pos m /\ -149 <= e <= 104)).
Proof.
  unfold F32.valid, valid_binary, bounded, canonical_mantissa, fexp, emin,
    F32.prec, F32.emax.
  rewrite digits2_pos_size. intros Hvalid.
  apply andb_prop in Hvalid as [Hcanon Hmax].
  apply Z.eqb_eq in Hcanon. apply Z.leb_le in Hmax.
  pose proof (Pos.size_gt m) as Hgt. pose proof (Pos.size_le m) as Hle.
  apply Pos2Z.pos_lt_pos in Hgt. apply Pos2Z.pos_le_pos in Hle.
  rewrite Pos2Z.inj_pow in Hgt, Hle.
  change (Z.pos m~0) with (2 * Z.pos m) in Hle.
  set (d := Z.pos (Pos.size m)) in *.
  assert (Hd : 0 < d) by (subst d; lia).
  destruct (Z.max_spec (d + e - 24) (3 - 128 - 24)) as [[Hlt Heq]|[Hge Heq]];
    rewrite Heq in Hcanon.
  - assert (Hd24 : d <= 24) by lia.
    assert (Hpow : 2 ^ d <= 2 ^ 24) by (apply Z.pow_le_mono_r; lia).
    split; [lia|].
    destruct (Z.lt_ge_cases (Z.pos m) (2 ^ 23)); [left; lia | right; lia].
  - assert (Hd24 : d = 24) by lia. rewrite Hd24 in Hgt, Hle.
    split; [lia|]. right.
    change (2 ^ 24) with (2 * 2 ^ 23) in Hle. lia.
Qed.

(** The bits of a valid finite binary32 value: the sign bit above a nonzero
    31-bit rest. *)
Lemma Float32bits_finite (s : bool) (m : positive) (e : Z) :
  F32.valid (S754_finite s m e) = true ->
  exists rest, 0 < rest < 2 ^ 31 /\
    F32.Float32bits (S754_finite s m e) = Z.b2z s * 2 ^ 31 + rest.
Proof.
  intros Hvalid.
  destruct (valid_finite_range s m e Hvalid) as [Hm [[Hsub He]|[Hnorm He]]];
    unfold F32.Float32bits; change 0x800000 with (2 ^ 23) in *.
  - destruct (Z.ltb_spec (Z.pos m) (2 ^ 23)); [|lia].
    exists (Z.pos m). split; [lia|].
    apply lor_shiftl_low; lia.
  - destruct (Z.ltb_spec (Z.pos m) (2 ^ 23)); [lia|].
    exists ((e + 150) * 2 ^ 23 + (Z.pos m - 2 ^ 23)).
    change (2 ^ 24) with (2 * 2 ^ 23) in Hm.
    rewrite (lor_shiftl_low (e + 150)) by lia.
    split; [|apply lor_shiftl_low; [lia|]];
      change (2 ^ 31) with (256 * 2 ^ 23); nia.
Qed.

Opaque F32.Float32bits.

(** Below [ExponentMin] the encoder flushes to the zero of the input's sign
    in the modes that are not Strict and reports underflow in Strict mode. *)
Lemma underflow_below_ExponentMin
    (s : bool) (m : positive) (e : Z) (mode : ConversionMode) :
  F32.valid (S754_finite s m e) = true ->
  rebiased_exponent (S754_finite s m e) < ExponentMin ->
  ToFloat8WithMode (S754_finite s m e) mode =
    if is_strict mode
    then (0, Some (mkFloat8Error "convert" (S754_finite s m e)
                     "underflow: value too small for float8"))
    else (zero_of_sign s, None).
Proof.
  intros Hvalid Hexp.
  destruct (Float32bits_finite s m e Hvalid) as (rest & Hrest & Hbits).
  unfold rebiased_exponent in Hexp. unfold ToFloat8WithMode.
  replace (F32.eqb (S754_finite s m e) F32.zero) with false
    by now destruct s.
  cbn [F32.IsInf F32.IsNaN].
  set (bits := F32.Float32bits (S754_finite s m e)) in *.
  assert (Hsign : Z.shiftr bits 31 = Z.b2z s).
  { rewrite Z.shiftr_div_pow2, Hbits by lia.
    rewrite Z.div_add_l, Z.div_small by lia. lia. }
  assert (Hnonzero :
    (Z.land (Z.shiftr bits 23) 0xFF =? 0) && (Z.land bits 0x7FFFFF =? 0)
    = false).
  { apply andb_false_iff.
    destruct (Z.eqb_spec (Z.land (Z.shiftr bits 23) 0xFF) 0) as [He0|];
      [|now left].
    destruct (Z.eqb_spec (Z.land bits 0x7FFFFF) 0) as [Hm0|]; [|now right].
    exfalso.
    change 0xFF with (Z.ones 8) in He0.
    change 0x7FFFFF with (Z.ones 23) in Hm0.
    rewrite Z.land_ones, Z.shiftr_div_pow2 in He0 by lia.
    rewrite Z.land_ones in Hm0 by lia.
    pose proof (Z.div_mod bits (2 ^ 23) ltac:(lia)) as Hdm.
    pose proof (Z.div_mod (bits / 2 ^ 23) (2 ^ 8) ltac:(lia)) as Hdm'.
    rewrite Hm0 in Hdm. rewrite He0 in Hdm'.
    change (2 ^ 31) with (2 ^ 23 * 2 ^ 8) in *.
    destruct s; simpl Z.b2z in *; nia. }
  rewrite Hnonzero, Hsign.
  destruct (Z.gtb_spec (Z.land (Z.shiftr bits 23) 0xFF - Float32Bias
                        + ExponentBias) ExponentMax) as [Hgt|_];
    [unfold ExponentMin, ExponentMax in *; lia|].
  destruct (Z.ltb_spec (Z.land (Z.shiftr bits 23) 0xFF - Float32Bias
                        + ExponentBias) ExponentMin) as [_|Hge]; [|lia].
  destruct (is_strict mode); [reflexivity|].
  now destruct s.
Qed.

Transparent F32.Float32bits.

(** binary32 2^-10 = 0.0009765625 *)
Definition tiny32 : float32 := F32.Float32frombits 0x3A800000.

(** C4: 2^-10 is a finite nonzero binary32 value below the least nonzero
    value of the 8-bit format, with rebiased exponent -3, below every
    exponent field of the format but not below [ExponentMin] = -7.  The
    encoder does not flush it: in Default and in Strict mode alike it returns
    0xE8 without error, the pattern of -64. *)
Theorem encode_tiny_not_flushed :
  tiny32 = S754_finite false 8388608 (-33) /\
  F32.valid tiny32 = true /\
  F32.ltb (SFabs tiny32) (toFloat32Algorithmic SmallestPositive) = true /\
  rebiased_exponent tiny32 = -3 /\
  ToFloat8WithMode tiny32 ModeDefault = (0xE8, None) /\
  ToFloat8WithMode tiny32 ModeStrict = (0xE8, None) /\
  toFloat32Algorithmic 0xE8 = S754_finite true 8388608 (-17).
Proof. repeat split. Qed.

(** * Further operations of the package *)

(** ** arithmetic.go: the remaining comparisons and the slice operations *)

Definition LessEqual (g : Globals) (a b : Float8) : bool :=
  Less g a b || Equal a b.

Definition GreaterEqual (g : Globals) (a b : Float8) : bool :=
  Greater g a b || Equal a b.

(** [result := make([]Float8, n)] followed by [for i := range ... {
    result[i] = cell(i) }]. *)
Definition fill_slice {A : Type} (zero : A) (n : nat) (cell : nat -> A)
  : list A :=
  fold_left (fun result i => <[i := cell i]> result) (seq 0 n)
            (replicate n zero).

(** A slice operation that can panic returns [None] when it does. *)
Definition AddSlice (g : Globals) (a b : list Float8) : option (list Float8) :=
  if negb (length a =? length b)%nat then None
  else Some (fill_slice 0 (length a)
               (fun i => Add g (nth i a 0) (nth i b 0))).

Definition MulSlice (g : Globals) (a b : list Float8) : option (list Float8) :=
  if negb (length a =? length b)%nat then None
  else Some (fill_slice 0 (length a)
               (fun i => Mul g (nth i a 0) (nth i b 0))).

Definition ScaleSlice (g : Globals) (s : list Float8) (scalar : Float8)
  : list Float8 :=
  fill_slice 0 (length s) (fun i => Mul g (nth i s 0) scalar).

Definition SumSlice (g : Globals) (s : list Float8) : Float8 :=
  fold_left (fun sum v => Add g sum v) s PositiveZero.

(** ** convert.go: the batch conversions

    A Go slice is [nil] ([None]) or a list; [len] of [nil] is 0. *)
Definition ToSlice8 (g : Globals) (f32s : option (list float32))
  : option (list Float8) :=
  match f32s with
  | None => None
  | Some l =>
      if (length l =? 0)%nat then Some []
      else Some (fill_slice 0 (length l)
                   (fun i =>
                      let x := nth i l F32.zero in
                      if F32.eqb x F32.zero && F32.Signbit x then NegativeZero
                      else ToFloat8 g x))
  end.

(** The pointer arithmetic of [ToSlice32] walks the two backing arrays in
    steps of one element: it reads [f8s[i]] and writes [result[i]]. *)
Definition ToSlice32 (g : Globals) (f8s : option (list Float8))
  : option (list float32) :=
  let l := match f8s with None => [] | Some l => l end in
  if (length l =? 0)%nat then None
  else Some (fill_slice F32.zero (length l)
               (fun i => ToFloat32 g (nth i l 0))).

(** ** float8.go: memory report and validation *)

Definition GetMemoryUsage (g : Globals) : Z :=
  let usage := 0 in
  let usage := match conversionTable g with
               | Some _ => usage + 256 * 4 | None => usage end in
  let usage := match addTable g with
               | Some _ => usage + 65536 | None => usage end in
  let usage := match subTable g with
               | Some _ => usage + 65536 | None => usage end in
  let usage := match mulTable g with
               | Some _ => usage + 65536 | None => usage end in
  let usage := match divTable g with
               | Some _ => usage + 65536 | None => usage end in
  usage.

Definition IsNormal (f : Float8) : bool := negb (IsZero f) && IsFinite f.

(** binary32 -1.0 *)
Definition minus_one32 : float32 := F32.Float32frombits 0xBF800000.

Definition One (g : Globals) : Float8 := ToFloat8 g one32.

(** ** math.go: the utility functions *)

Module Math.

Definition Clamp (g : Globals) (f min max : Float8) : Float8 :=
  if Less g f min then min
  else if Greater g f max then max
  else f.

Definition Lerp (g : Globals) (a b t : Float8) : Float8 :=
  let diff := Sub g b a in
  let scaled := Mul g t diff in
  Add g a scaled.

Definition CopySign (f sign : Float8) : Float8 :=
  if Sign sign <? 0 then Z.lor (Abs f) SignMask else Abs f.

Definition Sign (g : Globals) (f : Float8) : Float8 :=
  let sign := Sign f in
  if sign =? -1 then ToFloat8 g minus_one32
  else if sign =? 0 then PositiveZero
  else if sign =? 1 then ToFloat8 g one32
  else PositiveZero.

End Math.

(** * Further properties *)

(** ** The encoder and its modes *)

(** Outside Strict mode the encoder never reports an error, and Fast mode
    encodes as Default mode does.  Strict mode either agrees with Default
    mode, value and nil error, or returns 0 together with an error. *)
Theorem ToFloat8WithMode_modes (f32 : float32) :
  snd (ToFloat8WithMode f32 ModeDefault) = None /\
  ToFloat8WithMode f32 ModeFast = ToFloat8WithMode f32 ModeDefault /\
  (ToFloat8WithMode f32 ModeStrict = ToFloat8WithMode f32 ModeDefault \/
   (fst (ToFloat8WithMode f32 ModeStrict) = 0 /\
    snd (ToFloat8WithMode f32 ModeStrict) <> None)).
Proof.
  unfold ToFloat8WithMode. cbn [is_strict].
  repeat match goal with
         | |- context [if ?c then _ else _] => destruct c
         end;
    cbn [fst snd]; (split; [reflexivity|split; [reflexivity|]]);
    first [left; reflexivity | right; split; [reflexivity|discriminate]].
Qed.

Opaque F32.Float32bits.

(** Above [ExponentMax] the encoder saturates to the infinity of the
    input's sign in the modes that are not Strict, and in Strict mode returns
    0 with an overflow error that carries the input. *)
Theorem overflow_above_ExponentMax
    (s : bool) (m : positive) (e : Z) (mode : ConversionMode) :
  F32.valid (S754_finite s m e) = true ->
  ExponentMax < rebiased_exponent (S754_finite s m e) ->
  ToFloat8WithMode (S754_finite s m e) mode =
    if is_strict mode
    then (0, Some (mkFloat8Error "convert" (S754_finite s m e)
                     "overflow: value too large for float8"))
    else (infinity_of_sign s, None).
Proof.
  intros Hvalid Hexp.
  destruct (Float32bits_finite s m e Hvalid) as (rest & Hrest & Hbits).
  unfold rebiased_exponent in Hexp. unfold ToFloat8WithMode.
  replace (F32.eqb (S754_finite s m e) F32.zero) with false
    by now destruct s.
  cbn [F32.IsInf F32.IsNaN].
  set (bits := F32.Float32bits (S754_finite s m e)) in *.
  assert (Hsign : Z.shiftr bits 31 = Z.b2z s).
  { rewrite Z.shiftr_div_pow2, Hbits by lia.
    rewrite Z.div_add_l, Z.div_small by lia. lia. }
  assert (Hnonzero :
    (Z.land (Z.shiftr bits 23) 0xFF =? 0) && (Z.land bits 0x7FFFFF =? 0)
    = false).
  { apply andb_false_iff. left. apply Z.eqb_neq.
    unfold ExponentMax, Float32Bias, ExponentBias in Hexp. lia. }
  rewrite Hnonzero, Hsign.
  destruct (Z.gtb_spec (Z.land (Z.shiftr bits 23) 0xFF - Float32Bias
                        + ExponentBias) ExponentMax) as [_|Hle]; [|lia].
  destruct (is_strict mode); [reflexivity|].
  now destruct s.
Qed.

Transparent F32.Float32bits.

Lemma overflow_above_ExponentMax_witness :
  ToFloat8WithMode (S754_finite true 12582912 (-13)) ModeStrict =
    if is_strict ModeStrict
    then (0, Some (mkFloat8Error "convert" (S754_finite true 12582912 (-13))
                     "overflow: value too large for float8"))
    else (infinity_of_sign true, None).
Proof.
  apply (overflow_above_ExponentMax true 12582912 (-13) ModeStrict).
  - reflexivity.
  - reflexivity.
Defined.

Lemma underflow_below_ExponentMin_witness :
  ToFloat8WithMode (S754_finite true 12582912 (-38)) ModeDefault =
    if is_strict ModeDefault
    then (0, Some (mkFloat8Error "convert" (S754_finite true 12582912 (-38))
                     "underflow: value too small for float8"))
    else (zero_of_sign true, None).
Proof.
  apply (underflow_below_ExponentMin true 12582912 (-38) ModeDefault).
  - reflexivity.
  - reflexivity.
Defined.

(** ** The decoder *)

Ltac check_bytes :=
  match goal with
  | |- forall f, in_u8 f -> _ = true =>
      apply forall_u8; vm_compute; reflexivity
  end.

Definition decode_value_check (f : Float8) : bool :=
  IsZero f || IsInf f || IsNaN f ||
  (F32Facts.same
     (toFloat32Algorithmic f)
     (S754_finite (sign_bit f)
        (Z.to_pos (0x800000 + Z.shiftl (Z.land f MantissaMask) 20))
        (Z.land (Z.shiftr f MantissaLen) 0x0F - 30)) &&
   F32.valid (toFloat32Algorithmic f)).

(** Every pattern that is not a zero, an infinity or a NaN decodes to the
    valid binary32 number with the pattern's sign, significand
    [(8 + mantissa) * 2^20] and exponent [exponent field - 30], that is
    [(1 + mantissa/8) * 2^(exponent field - 7)]: the leading 1 is implicit
    for the exponent field 0 as well, and for the exponent field 15. *)
Theorem toFloat32Algorithmic_value (f : Float8) :
  in_u8 f -> IsZero f = false -> IsInf f = false -> IsNaN f = false ->
  toFloat32Algorithmic f =
    S754_finite (sign_bit f)
      (Z.to_pos (0x800000 + Z.shiftl (Z.land f MantissaMask) 20))
      (Z.land (Z.shiftr f MantissaLen) 0x0F - 30) /\
  F32.valid (toFloat32Algorithmic f) = true.
Proof.
  intros Hf Hz Hi Hn.
  assert (Hcheck : decode_value_check f = true)
    by (revert f Hf Hz Hi Hn; intros f Hf _ _ _; revert f Hf; check_bytes).
  unfold decode_value_check in Hcheck. rewrite Hz, Hi, Hn in Hcheck.
  simpl in Hcheck. apply andb_prop in Hcheck as [Hsame Hvalid].
  split; [now apply F32Facts.same_eq | exact Hvalid].
Qed.

Lemma toFloat32Algorithmic_value_witness :
  toFloat32Algorithmic 0x01 =
    S754_finite (sign_bit 0x01)
      (Z.to_pos (0x800000 + Z.shiftl (Z.land 0x01 MantissaMask) 20))
      (Z.land (Z.shiftr 0x01 MantissaLen) 0x0F - 30) /\
  F32.valid (toFloat32Algorithmic 0x01) = true.
Proof.
  apply (toFloat32Algorithmic_value 0x01).
  - unfold in_u8. lia.
  - reflexivity.
  - reflexivity.
  - reflexivity.
Defined.

(** In every state of the package, with the conversion table or without,
    [ToFloat32] returns what the algorithmic decoder returns; enabling fast
    conversion installs a table and changes no result. *)
Theorem ToFloat32_is_algorithmic (g : Globals) (f : Float8) :
  reachable g -> in_u8 f ->
  ToFloat32 g f = toFloat32Algorithmic f /\
  conversionTable (EnableFastConversion g) <> None /\
  ToFloat32 (EnableFastConversion g) f = ToFloat32 g f.
Proof.
  intros Hg Hf.
  assert (Hg' : reachable (EnableFastConversion g))
    by apply (reachable_run DoEnableFastConversion), Hg.
  apply reachable_ok in Hg as [Hc _]. apply reachable_ok in Hg' as [Hc' _].
  rewrite !ToFloat32_algorithmic by done.
  split; [reflexivity|]. split; [|reflexivity].
  unfold EnableFastConversion, initConversionTable.
  destruct (conversionTable g) eqn:Hconv; cbn [conversionTable];
    [rewrite Hconv|]; discriminate.
Qed.

Lemma ToFloat32_is_algorithmic_witness :
  ToFloat32 initial 0x3C = toFloat32Algorithmic 0x3C /\
  conversionTable (EnableFastConversion initial) <> None /\
  ToFloat32 (EnableFastConversion initial) 0x3C = ToFloat32 initial 0x3C.
Proof.
  apply (ToFloat32_is_algorithmic initial 0x3C).
  - apply reachable_initial.
  - unfold in_u8. lia.
Defined.

Definition roundtrip_mode_check (mode : ConversionMode) (v : Float8) : bool :=
  let r := ToFloat8WithMode (toFloat32Algorithmic v) mode in
  if IsNaN v
  then (fst r =? (if is_strict mode then 0 else NaN))
  else (fst r =? v) && match snd r with None => true | Some _ => false end.

(** Whatever the default conversion mode, Strict included, [ToFloat8] of
    the decoded value gives every pattern back except the two NaN patterns,
    and without an error; a NaN pattern gives 0x7F, or 0 when the default
    mode is Strict. *)
Theorem ToFloat8_ToFloat32_roundtrip (g : Globals) (v : Float8) :
  reachable g -> in_u8 v ->
  (IsNaN v = false ->
   ToFloat8 g (ToFloat32 g v) = v /\
   snd (ToFloat8WithMode (ToFloat32 g v) (DefaultConversionMode g)) = None) /\
  (IsNaN v = true ->
   ToFloat8 g (ToFloat32 g v) =
   if is_strict (DefaultConversionMode g) then 0 else NaN).
Proof.
  intros Hg Hv. apply reachable_ok in Hg as [Hc _].
  rewrite ToFloat32_algorithmic by done. unfold ToFloat8.
  assert (Hcheck : roundtrip_mode_check (DefaultConversionMode g) v = true)
    by (revert v Hv; destruct (DefaultConversionMode g); check_bytes).
  unfold roundtrip_mode_check in Hcheck.
  destruct (IsNaN v); split; try discriminate; intros _.
  - now apply Z.eqb_eq.
  - apply andb_prop in Hcheck as [Hfst Hsnd]. apply Z.eqb_eq in Hfst.
    split; [exact Hfst|].
    now destruct (snd (ToFloat8WithMode (toFloat32Algorithmic v)
                         (DefaultConversionMode g))).
Qed.

Lemma ToFloat8_ToFloat32_roundtrip_witness :
  (IsNaN 0xFE = false ->
   ToFloat8 initial (ToFloat32 initial 0xFE) = 0xFE /\
   snd (ToFloat8WithMode (ToFloat32 initial 0xFE)
          (DefaultConversionMode initial)) = None) /\
  (IsNaN 0xFE = true ->
   ToFloat8 initial (ToFloat32 initial 0xFE) =
   if is_strict (DefaultConversionMode initial) then 0 else NaN).
Proof.
  apply (ToFloat8_ToFloat32_roundtrip initial 0xFE).
  - apply reachable_initial.
  - unfold in_u8. lia.
Defined.

(** ** Classification, sign and magnitude *)

Definition classification_check (f : Float8) : bool :=
  negb (IsZero f && IsInf f) && negb (IsZero f && IsNaN f) &&
  negb (IsInf f && IsNaN f) &&
  Bool.eqb (IsFinite f) (negb (Z.land f ExponentMask =? ExponentMask)) &&
  Bool.eqb (negb (IsFinite f) && negb (IsInf f) && negb (IsNaN f))
           ((0x79 <=? Z.land f 0x7F) && (Z.land f 0x7F <=? 0x7E)) &&
  (IsInf f || IsNaN f ||
   match toFloat32Algorithmic f with
   | S754_zero _ | S754_finite _ _ _ => true
   | _ => false
   end).

(** The classes zero, infinity and NaN exclude one another.  [IsFinite]
    rejects exactly the patterns whose exponent field is all ones: besides
    the infinities and the NaNs these are the twelve patterns 0x79..0x7E and
    0xF9..0xFE, [MaxValue] and [MinValue] among them, which the decoder
    nevertheless maps to finite numbers, as it does every pattern that is
    neither an infinity nor a NaN. *)
Theorem classification (f : Float8) :
  in_u8 f ->
  IsZero f && IsInf f = false /\
  IsZero f && IsNaN f = false /\
  IsInf f && IsNaN f = false /\
  IsFinite f = negb (Z.land f ExponentMask =? ExponentMask) /\
  (IsFinite f = false /\ IsInf f = false /\ IsNaN f = false <->
   0x79 <= Z.land f 0x7F <= 0x7E) /\
  (IsInf f = false -> IsNaN f = false ->
   F32.IsInf (toFloat32Algorithmic f) 0 = false /\
   F32.IsNaN (toFloat32Algorithmic f) = false).
Proof.
  intros Hf.
  assert (Hcheck : classification_check f = true) by (revert f Hf; check_bytes).
  unfold classification_check in Hcheck.
  repeat (apply andb_prop in Hcheck as [Hcheck ?]).
  repeat match goal with
         | H : negb _ = true |- _ => apply negb_true_iff in H
         | H : Bool.eqb _ _ = true |- _ => apply Bool.eqb_prop in H
         end.
  split; [done|]. split; [done|]. split; [done|]. split; [done|]. split.
  - destruct (IsFinite f), (IsInf f), (IsNaN f); simpl in *;
      split; try lia; intros; try (exfalso; lia); try (repeat split; done);
      match goal with H : _ /\ _ |- _ => destruct H as (? & ? & ?) end;
      discriminate.
  - intros Hi Hn.
    match goal with H : IsInf f || IsNaN f || _ = true |- _ =>
      rewrite Hi, Hn in H; simpl in H;
      destruct (toFloat32Algorithmic f); try discriminate; now split
    end.
Qed.

Lemma classification_witness :
  IsZero MaxValue && IsInf MaxValue = false /\
  IsZero MaxValue && IsNaN MaxValue = false /\
  IsInf MaxValue && IsNaN MaxValue = false /\
  IsFinite MaxValue = negb (Z.land MaxValue ExponentMask =? ExponentMask) /\
  (IsFinite MaxValue = false /\ IsInf MaxValue = false /\
   IsNaN MaxValue = false <->
   0x79 <= Z.land MaxValue 0x7F <= 0x7E) /\
  (IsInf MaxValue = false -> IsNaN MaxValue = false ->
   F32.IsInf (toFloat32Algorithmic MaxValue) 0 = false /\
   F32.IsNaN (toFloat32Algorithmic MaxValue) = false).
Proof.
  apply (classification MaxValue). unfold in_u8, MaxValue. lia.
Defined.

Definition Abs_check (f : Float8) : bool :=
  (0 <=? Abs f) && (Abs f <? 256) &&
  negb (sign_bit (Abs f)) &&
  (Z.land (Abs f) 0x7F =? Z.land f 0x7F) &&
  (Abs (Abs f) =? Abs f) &&
  Bool.eqb (IsNaN (Abs f)) (IsNaN f) &&
  F32Facts.same (toFloat32Algorithmic (Abs f)) (SFabs (toFloat32Algorithmic f)).

Lemma Abs_check_all (f : Float8) : in_u8 f -> Abs_check f = true.
Proof. revert f. check_bytes. Qed.

(** [Abs] clears the sign bit and keeps the other seven bits; it is
    idempotent, keeps NaN a NaN, and the value it decodes to is the absolute
    value of the value of its operand. *)
Theorem Abs_magnitude (f : Float8) :
  in_u8 f ->
  in_u8 (Abs f) /\
  sign_bit (Abs f) = false /\
  Z.land (Abs f) 0x7F = Z.land f 0x7F /\
  Abs (Abs f) = Abs f /\
  IsNaN (Abs f) = IsNaN f /\
  toFloat32Algorithmic (Abs f) = SFabs (toFloat32Algorithmic f).
Proof.
  intros Hf.
  pose proof (Abs_check_all f Hf) as Hcheck.
  unfold Abs_check in Hcheck.
  repeat (apply andb_prop in Hcheck as [Hcheck ?]).
  repeat split.
  - lia.
  - lia.
  - now apply negb_true_iff.
  - now apply Z.eqb_eq.
  - now apply Z.eqb_eq.
  - now apply Bool.eqb_prop.
  - now apply F32Facts.same_eq.
Qed.

Lemma Abs_magnitude_witness :
  in_u8 (Abs 0xB8) /\
  sign_bit (Abs 0xB8) = false /\
  Z.land (Abs 0xB8) 0x7F = Z.land 0xB8 0x7F /\
  Abs (Abs 0xB8) = Abs 0xB8 /\
  IsNaN (Abs 0xB8) = IsNaN 0xB8 /\
  toFloat32Algorithmic (Abs 0xB8) = SFabs (toFloat32Algorithmic 0xB8).
Proof. apply (Abs_magnitude 0xB8). unfold in_u8. lia. Defined.

Definition Neg_check (f : Float8) : bool :=
  (Neg (Neg f) =? f) && (Abs (Neg f) =? Abs f) &&
  Bool.eqb (IsNaN (Neg f)) (IsNaN f) &&
  F32Facts.same (toFloat32Algorithmic (Neg f))
    (if IsZero f then toFloat32Algorithmic f
     else SFopp (toFloat32Algorithmic f)).

(** [Neg] is an involution that keeps the magnitude and keeps NaN a NaN.
    On a nonzero pattern it negates the decoded value; on a zero it changes
    nothing, so the negation of +0 decodes to +0. *)
Theorem Neg_involutive (f : Float8) :
  in_u8 f ->
  Neg (Neg f) = f /\
  Abs (Neg f) = Abs f /\
  IsNaN (Neg f) = IsNaN f /\
  toFloat32Algorithmic (Neg f) =
    (if IsZero f then toFloat32Algorithmic f
     else SFopp (toFloat32Algorithmic f)).
Proof.
  intros Hf.
  assert (Hcheck : Neg_check f = true) by (revert f Hf; check_bytes).
  unfold Neg_check in Hcheck.
  repeat (apply andb_prop in Hcheck as [Hcheck ?]).
  repeat split.
  - now apply Z.eqb_eq.
  - now apply Z.eqb_eq.
  - now apply Bool.eqb_prop.
  - now apply F32Facts.same_eq.
Qed.

Lemma Neg_involutive_witness :
  Neg (Neg 0x3C) = 0x3C /\
  Abs (Neg 0x3C) = Abs 0x3C /\
  IsNaN (Neg 0x3C) = IsNaN 0x3C /\
  toFloat32Algorithmic (Neg 0x3C) =
    (if IsZero 0x3C then toFloat32Algorithmic 0x3C
     else SFopp (toFloat32Algorithmic 0x3C)).
Proof. apply (Neg_involutive 0x3C). unfold in_u8. lia. Defined.

Definition CopySign_check (f : Float8) : bool :=
  (Z.land (Z.lor (Abs f) SignMask) 0x7F =? Z.land f 0x7F) &&
  sign_bit (Z.lor (Abs f) SignMask) &&
  (0 <=? Z.lor (Abs f) SignMask) && (Z.lor (Abs f) SignMask <? 256).

(** [CopySign] keeps the seven magnitude bits of its first operand and sets
    the sign bit exactly when [Sign] of the second operand is negative: the
    result is positive when the second operand is negative zero or a NaN
    with the sign bit set. *)
Theorem CopySign_sign (f sign : Float8) :
  in_u8 f -> in_u8 sign ->
  in_u8 (Math.CopySign f sign) /\
  Z.land (Math.CopySign f sign) 0x7F = Z.land f 0x7F /\
  sign_bit (Math.CopySign f sign) =
    (sign_bit sign && negb (IsZero sign) && negb (IsNaN sign)).
Proof.
  intros Hf Hs.
  assert (Hcheck : CopySign_check f = true) by (revert f Hf; check_bytes).
  pose proof (Abs_check_all f Hf) as Habs. unfold Abs_check in Habs.
  repeat (apply andb_prop in Habs as [Habs ?]).
  assert (Hrange : in_u8 (Abs f)) by (unfold in_u8; lia).
  assert (Hpos : sign_bit (Abs f) = false) by now apply negb_true_iff.
  assert (Hmag : Z.land (Abs f) 0x7F = Z.land f 0x7F) by now apply Z.eqb_eq.
  assert (Hsign : (Sign sign <? 0) =
                  (sign_bit sign && negb (IsZero sign) && negb (IsNaN sign))).
  { unfold Sign, sign_bit.
    now destruct (IsNaN sign), (IsZero sign), (Z.land sign SignMask =? 0). }
  unfold Math.CopySign. rewrite Hsign.
  unfold CopySign_check in Hcheck.
  repeat (apply andb_prop in Hcheck as [Hcheck ?]).
  destruct (sign_bit sign && negb (IsZero sign) && negb (IsNaN sign)).
  - split; [unfold in_u8; lia|]. split; [now apply Z.eqb_eq | done].
  - split; [exact Hrange|]. split; [exact Hmag | exact Hpos].
Qed.

Lemma CopySign_sign_witness :
  in_u8 (Math.CopySign 0x3C NegativeZero) /\
  Z.land (Math.CopySign 0x3C NegativeZero) 0x7F = Z.land 0x3C 0x7F /\
  sign_bit (Math.CopySign 0x3C NegativeZero) =
    (sign_bit NegativeZero && negb (IsZero NegativeZero) &&
     negb (IsNaN NegativeZero)).
Proof.
  apply (CopySign_sign 0x3C NegativeZero); unfold in_u8, NegativeZero; lia.
Defined.

(** ** The order *)

(** A signed integer that orders the patterns as [Less] does: the seven
    magnitude bits, the infinities above every other magnitude, negated
    under the sign bit. *)
Definition order_key (f : Float8) : Z :=
  let magnitude := if IsInf f then 0x80 else Z.land f 0x7F in
  if sign_bit f then - magnitude else magnitude.

Definition key_check (p q : Float8 * float32) : bool :=
  IsNaN (fst p) || IsNaN (fst q) ||
  (Bool.eqb (less_decoded p q) (order_key (fst p) <? order_key (fst q)) &&
   Bool.eqb (Equal (fst p) (fst q)) (order_key (fst p) =? order_key (fst q))).

Lemma key_check_table :
  all_pairs key_check (map decoded (seqZ 0 256)) = true.
Proof. vm_compute. reflexivity. Qed.

Lemma Less_Equal_key (g : Globals) (a b : Float8) :
  conversion_ok g -> in_u8 a -> in_u8 b ->
  IsNaN a = false -> IsNaN b = false ->
  Less g a b = (order_key a <? order_key b) /\
  Equal a b = (order_key a =? order_key b).
Proof.
  intros Hc Ha Hb Hna Hnb.
  rewrite (Less_initial g) by done. rewrite Less_decoded.
  assert (Hcheck : key_check (decoded a) (decoded b) = true).
  { apply (all_pairs_true key_check _ key_check_table);
      apply in_map, list_elem_of_In, in_u8_seqZ; assumption. }
  unfold key_check in Hcheck. cbn [fst decoded] in Hcheck.
  rewrite Hna, Hnb in Hcheck. simpl in Hcheck.
  apply andb_prop in Hcheck as [Hl He].
  apply Bool.eqb_prop in Hl, He. now split.
Qed.

Lemma Less_nan (g : Globals) (a b : Float8) :
  IsNaN a = true \/ IsNaN b = true ->
  Less g a b = false /\ Equal a b = false.
Proof.
  intros Hnan. apply orb_true_iff in Hnan. unfold Less, Equal.
  now rewrite Hnan.
Qed.

Definition float_check (p q : Float8 * float32) : bool :=
  Bool.eqb (less_decoded p q) (F32.ltb (snd p) (snd q)) &&
  Bool.eqb (Equal (fst p) (fst q)) (F32.eqb (snd p) (snd q)).

Lemma float_check_table :
  all_pairs float_check (map decoded (seqZ 0 256)) = true.
Proof. vm_compute. reflexivity. Qed.

(** In every state of the package [Less] and [Equal], with their cases for
    NaN, the zeros and the infinities, decide what the binary32 comparisons
    [<] and [==] decide on the decoded operands. *)
Theorem comparisons_are_float32_comparisons (g : Globals) (a b : Float8) :
  reachable g -> in_u8 a -> in_u8 b ->
  Less g a b = F32.ltb (ToFloat32 g a) (ToFloat32 g b) /\
  Equal a b = F32.eqb (ToFloat32 g a) (ToFloat32 g b).
Proof.
  intros Hg Ha Hb. apply reachable_ok in Hg as [Hc _].
  rewrite (Less_initial g), !ToFloat32_algorithmic by done.
  rewrite Less_decoded.
  assert (Hcheck : float_check (decoded a) (decoded b) = true).
  { apply (all_pairs_true float_check _ float_check_table);
      apply in_map, list_elem_of_In, in_u8_seqZ; assumption. }
  unfold float_check in Hcheck. cbn [fst snd decoded] in Hcheck.
  apply andb_prop in Hcheck as [Hl He].
  apply Bool.eqb_prop in Hl, He. now split.
Qed.

Lemma comparisons_are_float32_comparisons_witness :
  Less initial 0xB8 0x38 =
    F32.ltb (ToFloat32 initial 0xB8) (ToFloat32 initial 0x38) /\
  Equal 0xB8 0x38 =
    F32.eqb (ToFloat32 initial 0xB8) (ToFloat32 initial 0x38).
Proof.
  apply (comparisons_are_float32_comparisons initial 0xB8 0x38).
  - apply reachable_initial.
  - unfold in_u8. lia.
  - unfold in_u8. lia.
Defined.

(** [Equal] holds exactly of two patterns that are not NaN and are the same
    pattern or two zeros; it is therefore symmetric and transitive, and
    reflexive on every pattern but the NaNs. *)
Theorem Equal_characterised (a b c : Float8) :
  in_u8 a -> in_u8 b -> in_u8 c ->
  (Equal a b = true <->
   IsNaN a = false /\ IsNaN b = false /\
   (a = b \/ (IsZero a = true /\ IsZero b = true))) /\
  Equal a b = Equal b a /\
  (Equal a b = true -> Equal b c = true -> Equal a c = true) /\
  Equal a a = negb (IsNaN a).
Proof.
  intros Ha Hb Hc.
  assert (Hchar : forall x y, in_u8 x -> in_u8 y ->
            (Equal x y = true <->
             IsNaN x = false /\ IsNaN y = false /\
             (x = y \/ (IsZero x = true /\ IsZero y = true)))).
  { intros x y Hx Hy. unfold Equal.
    destruct (IsNaN x) eqn:Hnx; [simpl; split; [discriminate|now intros []]|].
    destruct (IsNaN y) eqn:Hny;
      [simpl; split; [discriminate|now intros (_ & ? & _)]|].
    simpl.
    destruct (IsZero x) eqn:Hzx, (IsZero y) eqn:Hzy; simpl.
    - split; [intros _; repeat split; now right | reflexivity].
    - destruct (IsInf x) eqn:Hix;
        [apply IsInf_not_zero in Hix; congruence|]. simpl.
      destruct (IsInf y); (split; [intros He|intros (_ & _ & [->|[_ ?]])]);
        try discriminate; try congruence.
      + apply Z.eqb_eq in He. subst. congruence.
    - destruct (IsInf y) eqn:Hiy;
        [apply IsInf_not_zero in Hiy; congruence|].
      rewrite orb_false_r, andb_false_r.
      destruct (IsInf x); (split; [intros He|intros (_ & _ & [->|[? _]])]);
        try discriminate; try congruence.
      + apply Z.eqb_eq in He. subst. congruence.
    - destruct (IsInf x) eqn:Hix, (IsInf y) eqn:Hiy; simpl;
        (split; [intros He|intros (_ & _ & [->|[? _]])]);
        try discriminate; try congruence;
        try (apply Z.eqb_eq in He; now repeat split; left);
        try apply Z.eqb_refl. }
  split; [now apply Hchar|]. split; [|split].
  - destruct (Equal a b) eqn:Hab, (Equal b a) eqn:Hba; try reflexivity.
    + apply Hchar in Hab as (? & ? & Hcase); try done.
      assert (Equal b a = true) as Hsym
        by (apply Hchar; try done; repeat split; try done;
            destruct Hcase as [->|[? ?]]; [now left | now right]).
      congruence.
    + apply Hchar in Hba as (? & ? & Hcase); try done.
      assert (Equal a b = true) as Hsym
        by (apply Hchar; try done; repeat split; try done;
            destruct Hcase as [->|[? ?]]; [now left | now right]).
      congruence.
  - intros Hab Hbc.
    apply Hchar in Hab as (Hna & Hnb & Hab); try done.
    apply Hchar in Hbc as (_ & Hnc & Hbc); try done.
    apply Hchar; try done. repeat split; try done.
    destruct Hab as [->|[Hza Hzb]], Hbc as [->|[Hzb' Hzc]];
      try (now left); now right.
  - destruct (IsNaN a) eqn:Hna.
    + unfold Equal. now rewrite Hna.
    + apply Hchar; try done. repeat split; try done. now left.
Qed.

Lemma Equal_characterised_witness :
  (Equal 0x00 0x80 = true <->
   IsNaN 0x00 = false /\ IsNaN 0x80 = false /\
   (0x00 = 0x80 \/ (IsZero 0x00 = true /\ IsZero 0x80 = true))) /\
  Equal 0x00 0x80 = Equal 0x80 0x00 /\
  (Equal 0x00 0x80 = true -> Equal 0x80 0x00 = true -> Equal 0x00 0x00 = true) /\
  Equal 0x00 0x00 = negb (IsNaN 0x00).
Proof.
  apply (Equal_characterised 0x00 0x80 0x00); unfold in_u8; lia.
Defined.

(** [Less] is a strict order in every state of the package: irreflexive,
    asymmetric and transitive, NaN operands included (no NaN is below or
    above anything). *)
Theorem Less_strict_order (g : Globals) (a b c : Float8) :
  reachable g -> in_u8 a -> in_u8 b -> in_u8 c ->
  Less g a a = false /\
  (Less g a b = true -> Less g b a = false) /\
  (Less g a b = true -> Less g b c = true -> Less g a c = true).
Proof.
  intros Hg Ha Hb Hc. apply reachable_ok in Hg as [Hok _].
  assert (Hkey : forall x y, in_u8 x -> in_u8 y -> Less g x y = true ->
            IsNaN x = false /\ IsNaN y = false /\ order_key x < order_key y).
  { intros x y Hx Hy Hlt.
    destruct (IsNaN x) eqn:Hnx;
      [destruct (Less_nan g x y (or_introl Hnx)); congruence|].
    destruct (IsNaN y) eqn:Hny;
      [destruct (Less_nan g x y (or_intror Hny)); congruence|].
    destruct (Less_Equal_key g x y) as [Hl _]; try done.
    rewrite Hl in Hlt. apply Z.ltb_lt in Hlt. now repeat split. }
  assert (Hback : forall x y, in_u8 x -> in_u8 y ->
            IsNaN x = false -> IsNaN y = false ->
            order_key x < order_key y -> Less g x y = true).
  { intros x y Hx Hy Hnx Hny Hlt.
    destruct (Less_Equal_key g x y) as [Hl _]; try done.
    rewrite Hl. now apply Z.ltb_lt. }
  split; [|split].
  - destruct (Less g a a) eqn:Hlt; [|reflexivity].
    apply Hkey in Hlt as (_ & _ & Hlt); try done. lia.
  - intros Hab. destruct (Less g b a) eqn:Hba; [|reflexivity].
    apply Hkey in Hab as (_ & _ & Hab); try done.
    apply Hkey in Hba as (_ & _ & Hba); try done. lia.
  - intros Hab Hbc.
    apply Hkey in Hab as (Hna & _ & Hab); try done.
    apply Hkey in Hbc as (_ & Hnc & Hbc); try done.
    apply Hback; try done. lia.
Qed.

Lemma Less_strict_order_witness :
  Less initial 0xB8 0xB8 = false /\
  (Less initial 0xB8 0x00 = true -> Less initial 0x00 0xB8 = false) /\
  (Less initial 0xB8 0x00 = true -> Less initial 0x00 0x38 = true ->
   Less initial 0xB8 0x38 = true).
Proof.
  apply (Less_strict_order initial 0xB8 0x00 0x38).
  - apply reachable_initial.
  - unfold in_u8. lia.
  - unfold in_u8. lia.
  - unfold in_u8. lia.
Defined.

Lemma comparisons_key (g : Globals) (a b : Float8) :
  conversion_ok g -> in_u8 a -> in_u8 b ->
  IsNaN a = false -> IsNaN b = false ->
  Less g a b = (order_key a <? order_key b) /\
  Greater g a b = (order_key b <? order_key a) /\
  Equal a b = (order_key a =? order_key b) /\
  LessEqual g a b = (order_key a <=? order_key b) /\
  GreaterEqual g a b = (order_key b <=? order_key a).
Proof.
  intros Hc Ha Hb Hna Hnb.
  destruct (Less_Equal_key g a b) as [Hl He]; try done.
  destruct (Less_Equal_key g b a) as [Hg _]; try done.
  unfold LessEqual, GreaterEqual, Greater. rewrite Hl, Hg, He.
  repeat split; lia.
Qed.

(** On operands that are not NaN exactly one of [Less], [Equal] and
    [Greater] holds, [LessEqual] is the negation of [Greater] and
    [GreaterEqual] the negation of [Less].  With a NaN operand all five
    comparisons are false. *)
Theorem comparisons_total (g : Globals) (a b : Float8) :
  reachable g -> in_u8 a -> in_u8 b ->
  (IsNaN a = false -> IsNaN b = false ->
   LessEqual g a b = negb (Greater g a b) /\
   GreaterEqual g a b = negb (Less g a b) /\
   Equal a b = negb (Less g a b) && negb (Greater g a b) /\
   Less g a b && Greater g a b = false) /\
  (IsNaN a = true \/ IsNaN b = true ->
   Less g a b = false /\ Greater g a b = false /\ Equal a b = false /\
   LessEqual g a b = false /\ GreaterEqual g a b = false).
Proof.
  intros Hg Ha Hb. apply reachable_ok in Hg as [Hc _]. split.
  - intros Hna Hnb.
    destruct (comparisons_key g a b) as (Hl & Hgt & He & Hle & Hge);
      try done.
    rewrite Hl, Hgt, He, Hle, Hge. repeat split; lia.
  - intros Hnan.
    destruct (Less_nan g a b Hnan) as [Hl He].
    assert (Hnan' : IsNaN b = true \/ IsNaN a = true) by tauto.
    destruct (Less_nan g b a Hnan') as [Hgt _].
    unfold LessEqual, GreaterEqual, Greater. now rewrite Hl, Hgt, He.
Qed.

Lemma comparisons_total_witness :
  (IsNaN 0x38 = false -> IsNaN 0x40 = false ->
   LessEqual initial 0x38 0x40 = negb (Greater initial 0x38 0x40) /\
   GreaterEqual initial 0x38 0x40 = negb (Less initial 0x38 0x40) /\
   Equal 0x38 0x40 =
     negb (Less initial 0x38 0x40) && negb (Greater initial 0x38 0x40) /\
   Less initial 0x38 0x40 && Greater initial 0x38 0x40 = false) /\
  (IsNaN 0x38 = true \/ IsNaN 0x40 = true ->
   Less initial 0x38 0x40 = false /\ Greater initial 0x38 0x40 = false /\
   Equal 0x38 0x40 = false /\
   LessEqual initial 0x38 0x40 = false /\
   GreaterEqual initial 0x38 0x40 = false).
Proof.
  apply (comparisons_total initial 0x38 0x40).
  - apply reachable_initial.
  - unfold in_u8. lia.
  - unfold in_u8. lia.
Defined.

Definition key_range_check (f : Float8) : bool :=
  (-128 <=? order_key f) && (order_key f <=? 128) &&
  Bool.eqb (order_key f =? -128) (f =? NegativeInfinity) &&
  Bool.eqb (order_key f =? 128) (f =? PositiveInfinity).

Lemma key_range (f : Float8) :
  in_u8 f ->
  -128 <= order_key f <= 128 /\
  (f =? NegativeInfinity) = (order_key f =? -128) /\
  (f =? PositiveInfinity) = (order_key f =? 128).
Proof.
  intros Hf.
  assert (Hcheck : key_range_check f = true) by (revert f Hf; check_bytes).
  unfold key_range_check in Hcheck.
  repeat (apply andb_prop in Hcheck as [Hcheck ?]).
  repeat match goal with
         | H : Bool.eqb _ _ = true |- _ => apply Bool.eqb_prop in H
         end.
  repeat split; try lia; congruence.
Qed.

(** [Min] and [Max] pick one of their operands, and the one the order
    asks for. *)
Lemma Min_Max_key (g : Globals) (a b : Float8) :
  conversion_ok g -> in_u8 a -> in_u8 b ->
  IsNaN a = false -> IsNaN b = false ->
  (Min g a b = a \/ Min g a b = b) /\
  order_key (Min g a b) = Z.min (order_key a) (order_key b) /\
  (Max g a b = a \/ Max g a b = b) /\
  order_key (Max g a b) = Z.max (order_key a) (order_key b).
Proof.
  intros Hc Ha Hb Hna Hnb.
  destruct (key_range a Ha) as (Hra & Hnia & Hpia).
  destruct (key_range b Hb) as (Hrb & Hnib & Hpib).
  destruct (comparisons_key g a b) as (Hl & Hgt & _); try done.
  unfold Min, Max. rewrite Hna, Hnb, Hl, Hgt, Hnia, Hnib, Hpia, Hpib.
  cbn [orb].
  assert (Hninf : forall x, in_u8 x -> order_key x = -128 ->
                    x = NegativeInfinity).
  { intros x Hx Hk. destruct (key_range x Hx) as (_ & Hn & _).
    apply Z.eqb_eq. rewrite Hn. now apply Z.eqb_eq. }
  assert (Hpinf : forall x, in_u8 x -> order_key x = 128 ->
                    x = PositiveInfinity).
  { intros x Hx Hk. destruct (key_range x Hx) as (_ & _ & Hp).
    apply Z.eqb_eq. rewrite Hp. now apply Z.eqb_eq. }
  split; [|split; [|split]].
  - destruct (Z.eqb_spec (order_key a) (-128)) as [Hka|Hka];
      [left; symmetry; now apply Hninf|].
    destruct (Z.eqb_spec (order_key b) (-128)) as [Hkb|Hkb];
      [right; symmetry; now apply Hninf|]. cbn [orb].
    destruct (order_key a =? 128); [now right|].
    destruct (order_key b =? 128); [now left|].
    destruct (order_key a <? order_key b); [now left | now right].
  - destruct (Z.eqb_spec (order_key a) (-128)) as [Hka|Hka]; cbn [orb];
      [change (order_key NegativeInfinity) with (-128); lia|].
    destruct (Z.eqb_spec (order_key b) (-128)) as [Hkb|Hkb]; cbn [orb];
      [change (order_key NegativeInfinity) with (-128); lia|]. cbn [orb].
    destruct (Z.eqb_spec (order_key a) 128); [lia|].
    destruct (Z.eqb_spec (order_key b) 128); [lia|].
    destruct (Z.ltb_spec (order_key a) (order_key b)); lia.
  - destruct (Z.eqb_spec (order_key a) 128) as [Hka|Hka];
      [left; symmetry; now apply Hpinf|].
    destruct (Z.eqb_spec (order_key b) 128) as [Hkb|Hkb];
      [right; symmetry; now apply Hpinf|]. cbn [orb].
    destruct (order_key a =? -128); [now right|].
    destruct (order_key b =? -128); [now left|].
    destruct (order_key b <? order_key a); [now left | now right].
  - destruct (Z.eqb_spec (order_key a) 128) as [Hka|Hka]; cbn [orb];
      [change (order_key PositiveInfinity) with 128; lia|].
    destruct (Z.eqb_spec (order_key b) 128) as [Hkb|Hkb]; cbn [orb];
      [change (order_key PositiveInfinity) with 128; lia|]. cbn [orb].
    destruct (Z.eqb_spec (order_key a) (-128)); [lia|].
    destruct (Z.eqb_spec (order_key b) (-128)); [lia|].
    destruct (Z.ltb_spec (order_key b) (order_key a)); lia.
Qed.

(** On operands that are not NaN, [Min] is one of the two operands and is
    below or equal to both, [Max] is one of the two and above or equal to
    both. *)
Theorem Min_Max_bounds (g : Globals) (a b : Float8) :
  reachable g -> in_u8 a -> in_u8 b ->
  IsNaN a = false -> IsNaN b = false ->
  (Min g a b = a \/ Min g a b = b) /\
  LessEqual g (Min g a b) a = true /\
  LessEqual g (Min g a b) b = true /\
  (Max g a b = a \/ Max g a b = b) /\
  GreaterEqual g (Max g a b) a = true /\
  GreaterEqual g (Max g a b) b = true.
Proof.
  intros Hg Ha Hb Hna Hnb. apply reachable_ok in Hg as [Hc _].
  destruct (Min_Max_key g a b) as (Hmin & Hkmin & Hmax & Hkmax); try done.
  assert (Hmin_ok : in_u8 (Min g a b) /\ IsNaN (Min g a b) = false)
    by (destruct Hmin as [-> | ->]; now split).
  assert (Hmax_ok : in_u8 (Max g a b) /\ IsNaN (Max g a b) = false)
    by (destruct Hmax as [-> | ->]; now split).
  destruct Hmin_ok as [Hmin_u8 Hmin_nan], Hmax_ok as [Hmax_u8 Hmax_nan].
  destruct (comparisons_key g (Min g a b) a) as (_ & _ & _ & Hle_a & _);
    try done.
  destruct (comparisons_key g (Min g a b) b) as (_ & _ & _ & Hle_b & _);
    try done.
  destruct (comparisons_key g (Max g a b) a) as (_ & _ & _ & _ & Hge_a);
    try done.
  destruct (comparisons_key g (Max g a b) b) as (_ & _ & _ & _ & Hge_b);
    try done.
  rewrite Hle_a, Hle_b, Hge_a, Hge_b, Hkmin, Hkmax.
  repeat split; try done; lia.
Qed.

Lemma Min_Max_bounds_witness :
  (Min initial 0x40 0xB8 = 0x40 \/ Min initial 0x40 0xB8 = 0xB8) /\
  LessEqual initial (Min initial 0x40 0xB8) 0x40 = true /\
  LessEqual initial (Min initial 0x40 0xB8) 0xB8 = true /\
  (Max initial 0x40 0xB8 = 0x40 \/ Max initial 0x40 0xB8 = 0xB8) /\
  GreaterEqual initial (Max initial 0x40 0xB8) 0x40 = true /\
  GreaterEqual initial (Max initial 0x40 0xB8) 0xB8 = true.
Proof.
  apply (Min_Max_bounds initial 0x40 0xB8).
  - apply reachable_initial.
  - unfold in_u8. lia.
  - unfold in_u8. lia.
  - reflexivity.
  - reflexivity.
Defined.

(** With bounds that are not NaN and in order, [Clamp] of an operand that
    is not NaN lies between the bounds and is the operand itself when the
    operand lies between them; a NaN operand is returned as it is. *)
Theorem Clamp_within_bounds (g : Globals) (f lo hi : Float8) :
  reachable g -> in_u8 f -> in_u8 lo -> in_u8 hi ->
  IsNaN lo = false -> IsNaN hi = false -> LessEqual g lo hi = true ->
  (IsNaN f = false ->
   LessEqual g lo (Math.Clamp g f lo hi) = true /\
   LessEqual g (Math.Clamp g f lo hi) hi = true /\
   (LessEqual g lo f = true -> LessEqual g f hi = true ->
    Math.Clamp g f lo hi = f)) /\
  (IsNaN f = true -> Math.Clamp g f lo hi = f).
Proof.
  intros Hg Hf Hlo Hhi Hnlo Hnhi Horder.
  apply reachable_ok in Hg as [Hc _].
  destruct (comparisons_key g lo hi) as (_ & _ & _ & Hlh & _); try done.
  rewrite Hlh in Horder. apply Z.leb_le in Horder.
  split.
  - intros Hnf.
    destruct (comparisons_key g f lo) as (Hflo & _ & _ & _ & _); try done.
    destruct (comparisons_key g f hi) as (_ & Hfhi & _ & Hfhi_le & _);
      try done.
    destruct (comparisons_key g lo f) as (_ & _ & _ & Hlof_le & _); try done.
    destruct (comparisons_key g lo lo) as (_ & _ & _ & Hlolo & _); try done.
    destruct (comparisons_key g hi hi) as (_ & _ & _ & Hhihi & _); try done.
    unfold Math.Clamp. rewrite Hflo, Hfhi.
    destruct (Z.ltb_spec (order_key f) (order_key lo)).
    + rewrite Hlolo, Hlh. repeat split; try lia. rewrite Hlof_le. lia.
    + destruct (Z.ltb_spec (order_key hi) (order_key f)).
      * rewrite Hlh, Hhihi. repeat split; try lia. rewrite Hfhi_le. lia.
      * rewrite Hlof_le, Hfhi_le. repeat split; lia.
  - intros Hnf. unfold Math.Clamp, Greater.
    destruct (Less_nan g f lo (or_introl Hnf)) as [-> _].
    now destruct (Less_nan g hi f (or_intror Hnf)) as [-> _].
Qed.

Lemma Clamp_within_bounds_witness :
  (IsNaN 0x48 = false ->
   LessEqual initial 0xB8 (Math.Clamp initial 0x48 0xB8 0x38) = true /\
   LessEqual initial (Math.Clamp initial 0x48 0xB8 0x38) 0x38 = true /\
   (LessEqual initial 0xB8 0x48 = true -> LessEqual initial 0x48 0x38 = true ->
    Math.Clamp initial 0x48 0xB8 0x38 = 0x48)) /\
  (IsNaN 0x48 = true -> Math.Clamp initial 0x48 0xB8 0x38 = 0x48).
Proof.
  apply (Clamp_within_bounds initial 0x48 0xB8 0x38).
  - apply reachable_initial.
  - unfold in_u8. lia.
  - unfold in_u8. lia.
  - unfold in_u8. lia.
  - reflexivity.
  - reflexivity.
  - reflexivity.
Defined.

Definition Sign_check (f : Float8) : bool :=
  Bool.eqb (Sign f =? 1) (Less initial PositiveZero f) &&
  Bool.eqb (Sign f =? -1) (Less initial f PositiveZero) &&
  Bool.eqb (Sign f =? 0) (IsZero f || IsNaN f) &&
  ((Sign f =? 1) || (Sign f =? -1) || (Sign f =? 0)).

(** The method [Sign] is 1 exactly on the patterns above zero, -1 exactly
    on those below zero, and 0 on the two zeros and on the NaNs; it takes no
    other value. *)
Theorem Sign_is_order_with_zero (g : Globals) (f : Float8) :
  reachable g -> in_u8 f ->
  (Sign f = 1 <-> Less g PositiveZero f = true) /\
  (Sign f = -1 <-> Less g f PositiveZero = true) /\
  (Sign f = 0 <-> IsZero f = true \/ IsNaN f = true) /\
  (Sign f = 1 \/ Sign f = -1 \/ Sign f = 0).
Proof.
  intros Hg Hf. apply reachable_ok in Hg as [Hc _].
  assert (H0 : in_u8 PositiveZero) by (unfold in_u8, PositiveZero; lia).
  rewrite !(Less_initial g) by done.
  assert (Hcheck : Sign_check f = true) by (revert f Hf; check_bytes).
  unfold Sign_check in Hcheck.
  repeat (apply andb_prop in Hcheck as [Hcheck ?]).
  repeat match goal with
         | H : Bool.eqb _ _ = true |- _ => apply Bool.eqb_prop in H
         end.
  rewrite <- !Z.eqb_eq, <- orb_true_iff.
  repeat split; try congruence.
  rewrite !orb_true_iff in *. tauto.
Qed.

Lemma Sign_is_order_with_zero_witness :
  (Sign 0xB8 = 1 <-> Less initial PositiveZero 0xB8 = true) /\
  (Sign 0xB8 = -1 <-> Less initial 0xB8 PositiveZero = true) /\
  (Sign 0xB8 = 0 <-> IsZero 0xB8 = true \/ IsNaN 0xB8 = true) /\
  (Sign 0xB8 = 1 \/ Sign 0xB8 = -1 \/ Sign 0xB8 = 0).
Proof.
  apply (Sign_is_order_with_zero initial 0xB8).
  - apply reachable_initial.
  - unfold in_u8. lia.
Defined.

(** ** The operators in every state of the package *)

(** Whatever the arithmetic mode and the tables, a dispatched operation
    returns what the algorithmic operator returns in some state with a sound
    conversion table: the current state, or the one the tables were built
    in. *)
Lemma dispatch_algorithmic (g : Globals) (a b : Float8) (mode : ArithmeticMode) :
  reachable g -> in_u8 a -> in_u8 b ->
  exists g0, conversion_ok g0 /\
    AddWithMode g a b mode = addAlgorithmic g0 a b /\
    SubWithMode g a b mode = subAlgorithmic g0 a b /\
    MulWithMode g a b mode = mulAlgorithmic g0 a b /\
    DivWithMode g a b mode = divAlgorithmic g0 a b.
Proof.
  intros Hg Ha Hb. apply reachable_ok in Hg as [Hc Ht].
  unfold AddWithMode, SubWithMode, MulWithMode, DivWithMode.
  destruct (uses_table mode); [|exists g; now repeat split].
  destruct Ht as [(Hadd & Hsub & Hmul & Hdiv)|
                  (g0 & Hc0 & Hadd & Hsub & Hmul & Hdiv)];
    rewrite Hadd, Hsub, Hmul, Hdiv.
  - exists g. now repeat split.
  - exists g0. rewrite index_t_add, index_t_sub, index_t_mul, index_t_div
      by done. now repeat split.
Qed.

(** The state with a given default conversion mode and no table. *)
Definition bare (mode : ConversionMode) : Globals :=
  mkGlobals mode ArithmeticAuto None None None None None.

Lemma algorithmic_bare (g : Globals) (a b : Float8) :
  conversion_ok g -> in_u8 a -> in_u8 b ->
  addAlgorithmic g a b = addAlgorithmic (bare (DefaultConversionMode g)) a b /\
  subAlgorithmic g a b = subAlgorithmic (bare (DefaultConversionMode g)) a b /\
  mulAlgorithmic g a b = mulAlgorithmic (bare (DefaultConversionMode g)) a b /\
  divAlgorithmic g a b = divAlgorithmic (bare (DefaultConversionMode g)) a b.
Proof.
  intros Hc Ha Hb.
  unfold addAlgorithmic, subAlgorithmic, mulAlgorithmic, divAlgorithmic,
    ToFloat8.
  rewrite !(ToFloat32_algorithmic g) by done.
  repeat split; reflexivity.
Qed.

(** A property of one operand checked on the 256 bytes for the three
    default conversion modes. *)
Lemma forall_modes_u8 (P : ConversionMode -> Z -> bool) :
  forallb (fun mode => forallb (P mode) (seqZ 0 256))
          [ModeDefault; ModeStrict; ModeFast] = true ->
  forall mode f, in_u8 f -> P mode f = true.
Proof.
  intros Hall mode f Hf. simpl in Hall.
  repeat (apply andb_prop in Hall as [? Hall]).
  destruct mode; now apply forall_u8.
Qed.

Lemma mulAlgorithmic_special (g : Globals) (a b : Float8) :
  IsNaN a = false -> IsNaN b = false ->
  ((IsZero a && IsInf b) || (IsInf a && IsZero b) = true ->
   IsNaN (mulAlgorithmic g a b) = true) /\
  (IsZero a || IsZero b = true -> IsInf a = false -> IsInf b = false ->
   mulAlgorithmic g a b = zero_of_sign (xorb (sign_bit a) (sign_bit b))) /\
  (IsInf a || IsInf b = true -> IsZero a = false -> IsZero b = false ->
   mulAlgorithmic g a b = infinity_of_sign (xorb (sign_bit a) (sign_bit b))).
Proof.
  intros Hna Hnb. unfold mulAlgorithmic, sign_bit. rewrite Hna, Hnb.
  cbn [orb]. split; [|split].
  - intros Hcase.
    destruct (IsZero a), (IsInf a), (IsZero b), (IsInf b);
      try discriminate Hcase; reflexivity.
  - intros Hz Hia Hib. rewrite Hia, Hib, Hz.
    rewrite !andb_false_r. cbn [andb orb].
    now destruct (Z.land a SignMask =? 0), (Z.land b SignMask =? 0).
  - intros Hi Hza Hzb. rewrite Hza, Hzb, Hi.
    rewrite !andb_false_r. cbn [andb orb].
    now destruct (Z.land a SignMask =? 0), (Z.land b SignMask =? 0).
Qed.

(** For operands that are not NaN, in every state of the package, [Mul]
    gives NaN for a zero times an infinity, the zero whose sign is the
    exclusive-or of the operand signs when an operand is zero and none is
    infinite, and the infinity of that sign when an operand is infinite and
    none is zero. *)
Theorem Mul_special_values (g : Globals) (a b : Float8) :
  reachable g -> in_u8 a -> in_u8 b ->
  IsNaN a = false -> IsNaN b = false ->
  ((IsZero a && IsInf b) || (IsInf a && IsZero b) = true ->
   IsNaN (Mul g a b) = true) /\
  (IsZero a || IsZero b = true -> IsInf a = false -> IsInf b = false ->
   Mul g a b = zero_of_sign (xorb (sign_bit a) (sign_bit b))) /\
  (IsInf a || IsInf b = true -> IsZero a = false -> IsZero b = false ->
   Mul g a b = infinity_of_sign (xorb (sign_bit a) (sign_bit b))).
Proof.
  intros Hg Ha Hb Hna Hnb.
  destruct (dispatch_algorithmic g a b (DefaultArithmeticMode g))
    as (g0 & _ & _ & _ & Hmul & _); try done.
  unfold Mul. rewrite Hmul. now apply mulAlgorithmic_special.
Qed.

Lemma Mul_special_values_witness :
  ((IsZero 0x80 && IsInf 0x40) || (IsInf 0x80 && IsZero 0x40) = true ->
   IsNaN (Mul initial 0x80 0x40) = true) /\
  (IsZero 0x80 || IsZero 0x40 = true -> IsInf 0x80 = false ->
   IsInf 0x40 = false ->
   Mul initial 0x80 0x40 =
   zero_of_sign (xorb (sign_bit 0x80) (sign_bit 0x40))) /\
  (IsInf 0x80 || IsInf 0x40 = true -> IsZero 0x80 = false ->
   IsZero 0x40 = false ->
   Mul initial 0x80 0x40 =
   infinity_of_sign (xorb (sign_bit 0x80) (sign_bit 0x40))).
Proof.
  apply (Mul_special_values initial 0x80 0x40).
  - apply reachable_initial.
  - unfold in_u8. lia.
  - unfold in_u8. lia.
  - reflexivity.
  - reflexivity.
Defined.

Lemma addAlgorithmic_special (g : Globals) (a b : Float8) :
  (IsZero a = true -> addAlgorithmic g a b = b) /\
  (IsZero b = true -> IsZero a = false -> addAlgorithmic g a b = a) /\
  (IsInf a = true -> IsInf b = true ->
   addAlgorithmic g a b = if a =? b then a else PositiveZero) /\
  (IsInf a = true -> IsInf b = false -> IsZero b = false ->
   addAlgorithmic g a b = a) /\
  (IsInf b = true -> IsInf a = false -> IsZero a = false ->
   addAlgorithmic g a b = b).
Proof.
  unfold addAlgorithmic. repeat split.
  - now intros ->.
  - now intros -> ->.
  - intros Ha Hb. rewrite (IsInf_not_zero a Ha), (IsInf_not_zero b Hb).
    apply IsInf_true in Ha as [-> | ->];
      apply IsInf_true in Hb as [-> | ->]; reflexivity.
  - intros Ha Hib Hzb. rewrite (IsInf_not_zero a Ha), Hzb, Ha.
    apply orb_false_iff in Hib as [Hp Hn]. rewrite Hp, Hn.
    now rewrite !andb_false_r.
  - intros Hb Hia Hza. rewrite Hza, (IsInf_not_zero b Hb), Hia, Hb.
    apply orb_false_iff in Hia as [Hp Hn]. now rewrite Hp, Hn.
Qed.

(** In every state of the package: a zero added on the left returns the
    other operand, whatever it is, and a zero added on the right of a
    nonzero operand returns that operand; two infinities of one sign add to
    that infinity and two of opposite signs to +0; an infinity and an operand
    that is neither zero nor infinite, NaN included, add to the infinity. *)
Theorem Add_special_values (g : Globals) (a b : Float8) :
  reachable g -> in_u8 a -> in_u8 b ->
  (IsZero a = true -> Add g a b = b) /\
  (IsZero b = true -> IsZero a = false -> Add g a b = a) /\
  (IsInf a = true -> IsInf b = true ->
   Add g a b = if a =? b then a else PositiveZero) /\
  (IsInf a = true -> IsInf b = false -> IsZero b = false -> Add g a b = a) /\
  (IsInf b = true -> IsInf a = false -> IsZero a = false -> Add g a b = b).
Proof.
  intros Hg Ha Hb.
  destruct (dispatch_algorithmic g a b (DefaultArithmeticMode g))
    as (g0 & _ & Hadd & _); try done.
  unfold Add. rewrite Hadd. apply addAlgorithmic_special.
Qed.

Lemma Add_special_values_witness :
  (IsZero 0x78 = true -> Add initial 0x78 0xF8 = 0xF8) /\
  (IsZero 0xF8 = true -> IsZero 0x78 = false -> Add initial 0x78 0xF8 = 0x78) /\
  (IsInf 0x78 = true -> IsInf 0xF8 = true ->
   Add initial 0x78 0xF8 = if 0x78 =? 0xF8 then 0x78 else PositiveZero) /\
  (IsInf 0x78 = true -> IsInf 0xF8 = false -> IsZero 0xF8 = false ->
   Add initial 0x78 0xF8 = 0x78) /\
  (IsInf 0xF8 = true -> IsInf 0x78 = false -> IsZero 0x78 = false ->
   Add initial 0x78 0xF8 = 0xF8).
Proof.
  apply (Add_special_values initial 0x78 0xF8).
  - apply reachable_initial.
  - unfold in_u8. lia.
  - unfold in_u8. lia.
Defined.

Lemma subAlgorithmic_special (g : Globals) (a b : Float8) :
  (IsZero b = true -> subAlgorithmic g a b = a) /\
  (IsZero a = true -> IsZero b = false -> subAlgorithmic g a b = Neg b) /\
  (IsInf a = true -> IsInf b = true ->
   subAlgorithmic g a b = if a =? b then PositiveZero else a) /\
  (IsInf a = true -> IsInf b = false -> IsZero b = false ->
   subAlgorithmic g a b = a) /\
  (IsInf b = true -> IsInf a = false -> IsZero a = false ->
   subAlgorithmic g a b = Neg b).
Proof.
  unfold subAlgorithmic. repeat split.
  - now intros ->.
  - now intros -> ->.
  - intros Ha Hb. rewrite (IsInf_not_zero a Ha), (IsInf_not_zero b Hb).
    apply IsInf_true in Ha as [-> | ->];
      apply IsInf_true in Hb as [-> | ->]; reflexivity.
  - intros Ha Hib Hzb. rewrite (IsInf_not_zero a Ha), Hzb, Ha.
    cbn [orb andb]. rewrite andb_true_r.
    destruct (Z.eqb_spec a b) as [<-|_]; [congruence|reflexivity].
  - intros Hb Hia Hza. rewrite Hza, (IsInf_not_zero b Hb), Hia, Hb.
    now rewrite andb_false_r.
Qed.

(** In every state of the package: subtracting a zero returns the minuend;
    a zero minus a nonzero operand is [Neg] of that operand; an infinity
    minus itself is +0 and minus the other infinity is the minuend; an
    infinity minus an operand that is neither zero nor infinite is the
    infinity, and such an operand minus an infinity is the other infinity. *)
Theorem Sub_special_values (g : Globals) (a b : Float8) :
  reachable g -> in_u8 a -> in_u8 b ->
  (IsZero b = true -> Sub g a b = a) /\
  (IsZero a = true -> IsZero b = false -> Sub g a b = Neg b) /\
  (IsInf a = true -> IsInf b = true ->
   Sub g a b = if a =? b then PositiveZero else a) /\
  (IsInf a = true -> IsInf b = false -> IsZero b = false -> Sub g a b = a) /\
  (IsInf b = true -> IsInf a = false -> IsZero a = false ->
   Sub g a b = Neg b).
Proof.
  intros Hg Ha Hb.
  destruct (dispatch_algorithmic g a b (DefaultArithmeticMode g))
    as (g0 & _ & _ & Hsub & _); try done.
  unfold Sub. rewrite Hsub. apply subAlgorithmic_special.
Qed.

Lemma Sub_special_values_witness :
  (IsZero 0xF8 = true -> Sub initial 0x40 0xF8 = 0x40) /\
  (IsZero 0x40 = true -> IsZero 0xF8 = false ->
   Sub initial 0x40 0xF8 = Neg 0xF8) /\
  (IsInf 0x40 = true -> IsInf 0xF8 = true ->
   Sub initial 0x40 0xF8 = if 0x40 =? 0xF8 then PositiveZero else 0x40) /\
  (IsInf 0x40 = true -> IsInf 0xF8 = false -> IsZero 0xF8 = false ->
   Sub initial 0x40 0xF8 = 0x40) /\
  (IsInf 0xF8 = true -> IsInf 0x40 = false -> IsZero 0x40 = false ->
   Sub initial 0x40 0xF8 = Neg 0xF8).
Proof.
  apply (Sub_special_values initial 0x40 0xF8).
  - apply reachable_initial.
  - unfold in_u8. lia.
  - unfold in_u8. lia.
Defined.

(** ** Cancellation and the unit *)

Definition cancel_check (mode : ConversionMode) (x : Float8) : bool :=
  IsNaN x ||
  ((subAlgorithmic (bare mode) x x =? (if IsZero x then x else PositiveZero))
   && (IsZero x || (addAlgorithmic (bare mode) x (Neg x) =? PositiveZero))).

Lemma cancel_check_all (mode : ConversionMode) (x : Float8) :
  in_u8 x -> cancel_check mode x = true.
Proof. apply forall_modes_u8. vm_compute. reflexivity. Qed.

(** In every state of the package, a value that is not NaN minus itself is
    +0, except that a zero minus itself is that same zero; and a nonzero
    value plus its negation is +0. *)
Theorem Sub_self (g : Globals) (x : Float8) :
  reachable g -> in_u8 x -> IsNaN x = false ->
  Sub g x x = (if IsZero x then x else PositiveZero) /\
  (IsZero x = false -> Add g x (Neg x) = PositiveZero).
Proof.
  intros Hg Hx Hnan.
  pose proof (Neg_in_u8 x Hx) as Hneg.
  destruct (dispatch_algorithmic g x x (DefaultArithmeticMode g))
    as (g0 & Hc0 & _ & Hsub & _); try done.
  destruct (dispatch_algorithmic g x (Neg x) (DefaultArithmeticMode g))
    as (g1 & Hc1 & Hadd & _); try done.
  destruct (algorithmic_bare g0 x x) as (_ & Hsub0 & _); try done.
  destruct (algorithmic_bare g1 x (Neg x)) as (Hadd1 & _); try done.
  unfold Sub, Add. rewrite Hsub, Hadd, Hsub0, Hadd1.
  pose proof (cancel_check_all (DefaultConversionMode g0) x Hx) as H0.
  pose proof (cancel_check_all (DefaultConversionMode g1) x Hx) as H1.
  unfold cancel_check in H0, H1. rewrite Hnan in H0, H1. cbn [orb] in H0, H1.
  apply andb_prop in H0 as [H0 _]. apply andb_prop in H1 as [_ H1].
  split.
  - now apply Z.eqb_eq.
  - intros Hz. rewrite Hz in H1. now apply Z.eqb_eq.
Qed.

Lemma Sub_self_witness :
  Sub initial 0x45 0x45 = (if IsZero 0x45 then 0x45 else PositiveZero) /\
  (IsZero 0x45 = false -> Add initial 0x45 (Neg 0x45) = PositiveZero).
Proof.
  apply (Sub_self initial 0x45).
  - apply reachable_initial.
  - unfold in_u8. lia.
  - reflexivity.
Defined.

Definition unit_check (mode : ConversionMode) (x : Float8) : bool :=
  IsNaN x ||
  ((mulAlgorithmic (bare mode) 0x38 x =? x) &&
   (mulAlgorithmic (bare mode) x 0x38 =? x) &&
   (divAlgorithmic (bare mode) x 0x38 =? x)).

Lemma unit_check_all (mode : ConversionMode) (x : Float8) :
  in_u8 x -> unit_check mode x = true.
Proof. apply forall_modes_u8. vm_compute. reflexivity. Qed.

(** In every state of the package [One()] is the byte 0x38, and a value that
    is not NaN is unchanged by multiplying with it on either side and by
    dividing by it: zeros keep their sign and subnormal values are exact. *)
Theorem One_is_unit (g : Globals) (x : Float8) :
  reachable g -> in_u8 x -> IsNaN x = false ->
  One g = 0x38 /\
  Mul g (One g) x = x /\ Mul g x (One g) = x /\ Div g x (One g) = x.
Proof.
  intros Hg Hx Hnan.
  assert (H1 : in_u8 0x38) by (unfold in_u8; lia).
  unfold One. rewrite ToFloat8_one. split; [reflexivity|].
  destruct (dispatch_algorithmic g 0x38 x (DefaultArithmeticMode g))
    as (g0 & Hc0 & _ & _ & Hl & _); try done.
  destruct (dispatch_algorithmic g x 0x38 (DefaultArithmeticMode g))
    as (g1 & Hc1 & _ & _ & Hr & Hd); try done.
  destruct (algorithmic_bare g0 0x38 x) as (_ & _ & Hl0 & _); try done.
  destruct (algorithmic_bare g1 x 0x38) as (_ & _ & Hr1 & Hd1); try done.
  unfold Mul, Div. rewrite Hl, Hr, Hd, Hl0, Hr1, Hd1.
  pose proof (unit_check_all (DefaultConversionMode g0) x Hx) as H0.
  pose proof (unit_check_all (DefaultConversionMode g1) x Hx) as H2.
  unfold unit_check in H0, H2. rewrite Hnan in H0, H2. cbn [orb] in H0, H2.
  apply andb_prop in H0 as [H0 _]. apply andb_prop in H0 as [H0 _].
  apply andb_prop in H2 as [H2 H3]. apply andb_prop in H2 as [_ H2].
  split; [now apply Z.eqb_eq|]. split; now apply Z.eqb_eq.
Qed.

Lemma One_is_unit_witness :
  One initial = 0x38 /\
  Mul initial (One initial) 0x83 = 0x83 /\
  Mul initial 0x83 (One initial) = 0x83 /\
  Div initial 0x83 (One initial) = 0x83.
Proof.
  apply (One_is_unit initial 0x83).
  - apply reachable_initial.
  - unfold in_u8. lia.
  - reflexivity.
Defined.

Definition sign_abs_check (mode : ConversionMode) (x : Float8) : bool :=
  IsNaN x || IsZero x ||
  (mulAlgorithmic (bare mode) (Math.Sign (bare mode) x) (Abs x) =? x).

Lemma sign_abs_check_all (mode : ConversionMode) (x : Float8) :
  in_u8 x -> sign_abs_check mode x = true.
Proof. apply forall_modes_u8. vm_compute. reflexivity. Qed.

Lemma Math_Sign_bare (g : Globals) (x : Float8) :
  Math.Sign g x = Math.Sign (bare (DefaultConversionMode g)) x.
Proof. reflexivity. Qed.

Lemma Math_Sign_in_u8 (g : Globals) (x : Float8) : in_u8 (Math.Sign g x).
Proof.
  rewrite Math_Sign_bare. unfold Math.Sign.
  destruct (DefaultConversionMode g);
    destruct (Sign x =? -1); try (vm_compute; split; congruence);
    destruct (Sign x =? 0); try (vm_compute; split; congruence);
    destruct (Sign x =? 1); vm_compute; split; congruence.
Qed.

(** In every state of the package a value that is neither NaN nor a zero is
    the product of its sign, [Sign(f)], and its magnitude, [f.Abs()]. *)
Theorem Sign_times_Abs (g : Globals) (f : Float8) :
  reachable g -> in_u8 f -> IsNaN f = false -> IsZero f = false ->
  Mul g (Math.Sign g f) (Abs f) = f.
Proof.
  intros Hg Hf Hnan Hz.
  assert (Habs : in_u8 (Abs f)).
  { pose proof (Abs_check_all f Hf) as H. unfold Abs_check in H.
    do 5 (apply andb_prop in H as [H _]). apply andb_prop in H as [Hlo Hhi].
    unfold in_u8. lia. }
  pose proof (Math_Sign_in_u8 g f) as Hs.
  destruct (dispatch_algorithmic g (Math.Sign g f) (Abs f)
              (DefaultArithmeticMode g))
    as (g0 & Hc0 & _ & _ & Hmul & _); try done.
  destruct (algorithmic_bare g0 (Math.Sign g f) (Abs f))
    as (_ & _ & Hmul0 & _); try done.
  unfold Mul. rewrite Hmul, Hmul0.
  assert (Hsign : Math.Sign g f =
                  Math.Sign (bare (DefaultConversionMode g0)) f).
  { unfold Math.Sign. rewrite !ToFloat8_one.
    assert (Hm : forall h, ToFloat8 h minus_one32 = 0xB8)
      by (intros h; unfold ToFloat8; now destruct (DefaultConversionMode h)).
    now rewrite !Hm. }
  rewrite Hsign.
  pose proof (sign_abs_check_all (DefaultConversionMode g0) f Hf) as H.
  unfold sign_abs_check in H. rewrite Hnan, Hz in H. cbn [orb] in H.
  now apply Z.eqb_eq.
Qed.

Lemma Sign_times_Abs_witness :
  Mul initial (Math.Sign initial 0xC5) (Abs 0xC5) = 0xC5.
Proof.
  apply (Sign_times_Abs initial 0xC5).
  - apply reachable_initial.
  - unfold in_u8. lia.
  - reflexivity.
  - reflexivity.
Defined.

(** ** The slice operations *)

(** The loop that fills a fresh slice cell by cell leaves the list of the
    cells. *)
Lemma fill_slice_map {A : Type} (zero : A) (n : nat) (cell : nat -> A) :
  fill_slice zero n cell = map cell (seq 0 n).
Proof.
  unfold fill_slice.
  change (fun (result : list A) (i : nat) => <[i := cell i]> result)
    with (store (fun i : nat => i) cell).
  apply list_eq. intros i.
  destruct (decide (i < n)%nat) as [Hlt|Hge].
  - rewrite (lookup_stores (fun i : nat => i) cell (seq 0 n) _ i).
    + rewrite list_lookup_fmap, lookup_seq_lt by done. reflexivity.
    + apply list_elem_of_In, in_seq. lia.
    + now intros k' _ ->.
    + now rewrite length_replicate.
  - rewrite !lookup_ge_None_2; [done| |].
    + rewrite length_map, length_seq. lia.
    + rewrite length_stores, length_replicate. lia.
Qed.

Lemma map_nth_seq {A B : Type} (f : A -> B) (d : A) (l : list A) :
  map (fun i => f (nth i l d)) (seq 0 (length l)) = map f l.
Proof.
  induction l as [|x l IH]; [done|].
  simpl. f_equal. rewrite <- seq_shift, map_map. apply IH.
Qed.

Lemma map_nth_seq2 {A B C : Type} (f : A -> B -> C) (da : A) (db : B)
    (a : list A) (b : list B) :
  length a = length b ->
  map (fun i => f (nth i a da) (nth i b db)) (seq 0 (length a)) =
  zip_with f a b.
Proof.
  revert b. induction a as [|x a IH]; intros [|y b] Hlen;
    try discriminate; [done|].
  simpl. f_equal. rewrite <- seq_shift, map_map. apply IH.
  now injection Hlen.
Qed.

(** [AddSlice] and [MulSlice] panic exactly when the two slices differ in
    length; otherwise the result pairs the operands position by position, so
    it has their length, and two empty slices give an empty result. *)
Theorem AddSlice_MulSlice_elementwise (g : Globals) (a b : list Float8) :
  (length a <> length b ->
   AddSlice g a b = None /\ MulSlice g a b = None) /\
  (length a = length b ->
   AddSlice g a b = Some (zip_with (Add g) a b) /\
   MulSlice g a b = Some (zip_with (Mul g) a b)).
Proof.
  unfold AddSlice, MulSlice. split; intros Hlen.
  - apply Nat.eqb_neq in Hlen. now rewrite Hlen.
  - rewrite !fill_slice_map, !map_nth_seq2 by done.
    apply Nat.eqb_eq in Hlen. now rewrite Hlen.
Qed.

(** [ScaleSlice] multiplies position by position, whatever the slice holds
    and in whatever state; in every state of the package, scaling by
    [One()] gives back a slice that holds no NaN. *)
Theorem ScaleSlice_by_One (g : Globals) (s : list Float8) (scalar : Float8) :
  ScaleSlice g s scalar = map (fun v => Mul g v scalar) s /\
  (reachable g ->
   Forall (fun v => in_u8 v /\ IsNaN v = false) s ->
   ScaleSlice g s (One g) = s).
Proof.
  unfold ScaleSlice. rewrite !fill_slice_map.
  rewrite (map_nth_seq (fun v => Mul g v scalar)).
  rewrite (map_nth_seq (fun v => Mul g v (One g))).
  split; [reflexivity|]. intros Hg Hs.
  induction Hs as [|v s [Hv Hnan] _ IH]; [done|].
  simpl. rewrite IH. f_equal.
  assert (H1 : in_u8 0x38) by (unfold in_u8; lia).
  unfold One. rewrite ToFloat8_one.
  destruct (dispatch_algorithmic g v 0x38 (DefaultArithmeticMode g))
    as (g1 & Hc1 & _ & _ & Hr & _); try done.
  destruct (algorithmic_bare g1 v 0x38) as (_ & _ & Hr1 & _); try done.
  unfold Mul. rewrite Hr, Hr1.
  pose proof (unit_check_all (DefaultConversionMode g1) v Hv) as H2.
  unfold unit_check in H2. rewrite Hnan in H2. cbn [orb] in H2.
  apply andb_prop in H2 as [H2 _]. apply andb_prop in H2 as [_ H2].
  now apply Z.eqb_eq.
Qed.

Lemma ScaleSlice_by_One_witness :
  ScaleSlice initial [0x38; 0x80; 0x7F] 0x40 =
    map (fun v => Mul initial v 0x40) [0x38; 0x80; 0x7F] /\
  ScaleSlice initial [0x38; 0x80; 0xF8] (One initial) = [0x38; 0x80; 0xF8].
Proof.
  split.
  - apply (ScaleSlice_by_One initial [0x38; 0x80; 0x7F] 0x40).
  - apply (ScaleSlice_by_One initial [0x38; 0x80; 0xF8] 0x40).
    + apply reachable_initial.
    + repeat constructor; unfold in_u8; lia.
Defined.

(** The sum of an empty slice is +0 and the sum of a one-element slice is
    that element, NaN included; a leading zero of either sign in front of a
    non-empty slice does not change the sum.  This holds in every state of
    the package. *)
Theorem SumSlice_leading_zero (g : Globals) (z x : Float8) (s : list Float8) :
  reachable g -> in_u8 z -> in_u8 x -> IsZero z = true ->
  SumSlice g [] = PositiveZero /\
  SumSlice g [x] = x /\
  SumSlice g (z :: x :: s) = SumSlice g (x :: s).
Proof.
  intros Hg Hz Hx Hzero.
  assert (H0 : in_u8 PositiveZero) by (unfold in_u8, PositiveZero; lia).
  assert (Hleft : forall a b, in_u8 a -> in_u8 b -> IsZero a = true ->
                              Add g a b = b).
  { intros a b Ha Hb Hza.
    destruct (dispatch_algorithmic g a b (DefaultArithmeticMode g))
      as (g0 & _ & Hadd & _); try done.
    unfold Add. rewrite Hadd.
    destruct (addAlgorithmic_special g0 a b) as [Hspecial _].
    now apply Hspecial. }
  unfold SumSlice. cbn [fold_left].
  rewrite (Hleft PositiveZero x), (Hleft PositiveZero z) by done.
  now rewrite (Hleft z x) by done.
Qed.

Lemma SumSlice_leading_zero_witness :
  SumSlice initial [] = PositiveZero /\
  SumSlice initial [0x7F] = 0x7F /\
  SumSlice initial [0x80; 0x7F; 0x38] = SumSlice initial [0x7F; 0x38].
Proof.
  apply (SumSlice_leading_zero initial 0x80 0x7F [0x38]).
  - apply reachable_initial.
  - unfold in_u8. lia.
  - unfold in_u8. lia.
  - reflexivity.
Defined.

Lemma ToFloat8_negative_zero (g : Globals) (x : float32) :
  F32.eqb x F32.zero && F32.Signbit x = true -> ToFloat8 g x = NegativeZero.
Proof.
  intros H. apply andb_prop in H as [Heq Hsign].
  unfold ToFloat8, ToFloat8WithMode. now rewrite Heq, Hsign.
Qed.

Lemma ToSlice8_map (g : Globals) (l : list float32) :
  ToSlice8 g (Some l) = Some (map (ToFloat8 g) l).
Proof.
  unfold ToSlice8. destruct l as [|x l]; [reflexivity|].
  change (length (x :: l) =? 0)%nat with false. cbv iota.
  rewrite fill_slice_map.
  rewrite (map_nth_seq
             (fun x => if F32.eqb x F32.zero && F32.Signbit x
                       then NegativeZero else ToFloat8 g x)).
  f_equal. apply map_ext. intros y.
  destruct (F32.eqb y F32.zero && F32.Signbit y) eqn:Hy; [|reflexivity].
  symmetry. now apply ToFloat8_negative_zero.
Qed.

Lemma ToSlice32_map (g : Globals) (l : list Float8) :
  l <> [] -> ToSlice32 g (Some l) = Some (map (ToFloat32 g) l).
Proof.
  intros Hl. unfold ToSlice32. destruct l as [|x l]; [done|].
  change (length (x :: l) =? 0)%nat with false. cbv iota.
  rewrite fill_slice_map. now rewrite (map_nth_seq (ToFloat32 g)).
Qed.

(** The batch conversions convert position by position: [ToSlice8] of a
    non-nil slice is the slice of the [ToFloat8] of its elements (its own
    test for negative zero changes nothing), nil for nil and empty for
    empty; [ToSlice32] gives the [ToFloat32] of the elements, and nil for an
    empty slice as well as for nil. *)
Theorem ToSlice_elementwise (g : Globals) :
  ToSlice8 g None = None /\
  (forall l, ToSlice8 g (Some l) = Some (map (ToFloat8 g) l)) /\
  ToSlice32 g None = None /\
  ToSlice32 g (Some []) = None /\
  (forall l, l <> [] -> ToSlice32 g (Some l) = Some (map (ToFloat32 g) l)).
Proof.
  split; [reflexivity|]. split; [apply ToSlice8_map|].
  split; [reflexivity|]. split; [reflexivity|]. apply ToSlice32_map.
Qed.

(** In every state of the package, converting a slice without NaN to
    float32 and back gives the slice again, except that an empty slice comes
    back as nil. *)
Theorem ToSlice_roundtrip (g : Globals) (s : list Float8) :
  reachable g ->
  Forall (fun v => in_u8 v /\ IsNaN v = false) s ->
  ToSlice8 g (ToSlice32 g (Some s)) =
  match s with [] => None | _ => Some s end.
Proof.
  intros Hg Hs. destruct s as [|x s]; [reflexivity|].
  rewrite ToSlice32_map, ToSlice8_map by done.
  rewrite map_map. f_equal.
  apply reachable_ok in Hg as [Hc _].
  induction Hs as [|v l [Hv Hnan] _ IH]; [done|].
  simpl. rewrite IH. f_equal.
  rewrite ToFloat32_algorithmic by done.
  assert (Hcheck : roundtrip_mode_check (DefaultConversionMode g) v = true)
    by (revert v Hv Hnan; intros v Hv _; revert v Hv;
        destruct (DefaultConversionMode g); check_bytes).
  unfold roundtrip_mode_check in Hcheck. rewrite Hnan in Hcheck.
  apply andb_prop in Hcheck as [Hfst _]. now apply Z.eqb_eq in Hfst.
Qed.

Lemma ToSlice_roundtrip_witness :
  ToSlice8 initial (ToSlice32 initial (Some [0x80; 0x01; 0xF8; 0x7E])) =
  Some [0x80; 0x01; 0xF8; 0x7E].
Proof.
  apply (ToSlice_roundtrip initial [0x80; 0x01; 0xF8; 0x7E]).
  - apply reachable_initial.
  - repeat constructor; unfold in_u8; lia.
Defined.

(** ** The lookup tables in memory *)

(** The bytes a table holds: [elem] bytes for each element. *)
Definition table_bytes {A : Type} (elem : Z) (t : option (list A)) : Z :=
  match t with
  | Some l => elem * Z.of_nat (length l)
  | None => 0
  end.

Definition held_bytes (g : Globals) : Z :=
  table_bytes 4 (conversionTable g) +
  table_bytes 1 (addTable g) + table_bytes 1 (subTable g) +
  table_bytes 1 (mulTable g) + table_bytes 1 (divTable g).

Definition present {A : Type} (t : option A) : bool :=
  match t with Some _ => true | None => false end.

Lemma length_op_tables (g0 : Globals) :
  length (t_add (build_tables g0)) = Z.to_nat 65536 /\
  length (t_sub (build_tables g0)) = Z.to_nat 65536 /\
  length (t_mul (build_tables g0)) = Z.to_nat 65536 /\
  length (t_div (build_tables g0)) = Z.to_nat 65536.
Proof.
  split; [|split; [|split]].
  - apply (length_proj_build_tables t_add addAlgorithmic); reflexivity.
  - apply (length_proj_build_tables t_sub subAlgorithmic); reflexivity.
  - apply (length_proj_build_tables t_mul mulAlgorithmic); reflexivity.
  - apply (length_proj_build_tables t_div divAlgorithmic); reflexivity.
Qed.

Lemma usage_ok (g : Globals) :
  conversion_ok g -> tables_ok g ->
  GetMemoryUsage g = held_bytes g /\
  GetMemoryUsage g =
    (if present (conversionTable g) then 1024 else 0) +
    (if present (addTable g) then 262144 else 0) /\
  present (subTable g) = present (addTable g) /\
  present (mulTable g) = present (addTable g) /\
  present (divTable g) = present (addTable g).
Proof.
  intros Hc Ht.
  assert (Hconv : GetMemoryUsage g - table_bytes 4 (conversionTable g) =
                  GetMemoryUsage g -
                  (if present (conversionTable g) then 1024 else 0) /\
                  table_bytes 4 (conversionTable g) =
                  if present (conversionTable g) then 1024 else 0).
  { destruct Hc as [Hc|Hc]; rewrite Hc; unfold table_bytes, present.
    - split; reflexivity.
    - rewrite length_build_conversion_table, Z2Nat.id by lia.
      split; reflexivity. }
  destruct Hconv as [_ Hconv].
  unfold held_bytes. rewrite Hconv. unfold GetMemoryUsage.
  destruct Ht as [(Ha & Hs & Hm & Hd)|(g0 & _ & Ha & Hs & Hm & Hd)];
    rewrite Ha, Hs, Hm, Hd; unfold table_bytes, present.
  - destruct (conversionTable g); repeat split; reflexivity.
  - destruct (length_op_tables g0) as (La & Ls & Lm & Ld).
    rewrite La, Ls, Lm, Ld, Z2Nat.id by lia.
    destruct (conversionTable g); repeat split; reflexivity.
Qed.

(** In every state of the package [GetMemoryUsage] reports the bytes the
    tables really hold, four per entry of the conversion table and one per
    entry of an operator table; the four operator tables are present
    together or absent together, so the report is 0, 1024, 262144 or
    263168. *)
Theorem GetMemoryUsage_exact (g : Globals) :
  reachable g ->
  GetMemoryUsage g = held_bytes g /\
  GetMemoryUsage g =
    (if present (conversionTable g) then 1024 else 0) +
    (if present (addTable g) then 262144 else 0) /\
  present (subTable g) = present (addTable g) /\
  present (mulTable g) = present (addTable g) /\
  present (divTable g) = present (addTable g).
Proof.
  intros Hg. apply reachable_ok in Hg as [Hc Ht]. now apply usage_ok.
Qed.

Lemma GetMemoryUsage_exact_witness :
  GetMemoryUsage
    (run DoEnableFastArithmetic (run DoEnableFastConversion initial)) =
  held_bytes
    (run DoEnableFastArithmetic (run DoEnableFastConversion initial)) /\
  GetMemoryUsage
    (run DoEnableFastArithmetic (run DoEnableFastConversion initial)) =
  1024 + 262144 /\
  present (subTable (run DoEnableFastArithmetic
                       (run DoEnableFastConversion initial))) = true /\
  present (mulTable (run DoEnableFastArithmetic
                       (run DoEnableFastConversion initial))) = true /\
  present (divTable (run DoEnableFastArithmetic
                       (run DoEnableFastConversion initial))) = true.
Proof.
  apply (GetMemoryUsage_exact
           (run DoEnableFastArithmetic (run DoEnableFastConversion initial))).
  apply reachable_run, reachable_run, reachable_initial.
Defined.

Lemma Configure_fields (config : Config.t) (g : Globals) :
  DefaultConversionMode (Configure config g) = Config.DefaultMode config /\
  DefaultArithmeticMode (Configure config g) = Config.ArithmeticMode config /\
  present (conversionTable (Configure config g)) =
    Config.EnableFastConversion config /\
  present (addTable (Configure config g)) =
    Config.EnableFastArithmetic config.
Proof.
  unfold Configure, EnableFastArithmetic, DisableFastArithmetic,
    EnableFastConversion, DisableFastConversion,
    initArithmeticTables, initConversionTable.
  destruct config as [fa fc dm am]. cbn [Config.EnableFastArithmetic
    Config.EnableFastConversion Config.DefaultMode Config.ArithmeticMode].
  destruct g as [cm0 am0 conv add sub mul div].
  cbn [DefaultConversionMode DefaultArithmeticMode conversionTable addTable
       subTable mulTable divTable].
  destruct fa, fc, conv, add; repeat split; reflexivity.
Qed.

Lemma Configure_twice (config : Config.t) (g : Globals) :
  Configure config (Configure config g) = Configure config g.
Proof.
  unfold Configure, EnableFastArithmetic, DisableFastArithmetic,
    EnableFastConversion, DisableFastConversion,
    initArithmeticTables, initConversionTable.
  destruct config as [fa fc dm am]. cbn [Config.EnableFastArithmetic
    Config.EnableFastConversion Config.DefaultMode Config.ArithmeticMode].
  destruct g as [cm0 am0 conv add sub mul div].
  cbn [DefaultConversionMode DefaultArithmeticMode conversionTable addTable
       subTable mulTable divTable].
  destruct fa, fc, conv, add; reflexivity.
Qed.

(** [Configure] sets both default modes to those of the configuration and
    leaves the conversion table and the operator tables present exactly when
    the configuration enables them: from any state of the package the memory
    in use afterwards depends on the two flags only.  Applying the same
    configuration a second time changes nothing. *)
Theorem Configure_postcondition (config : Config.t) (g : Globals) :
  reachable g ->
  DefaultConversionMode (Configure config g) = Config.DefaultMode config /\
  DefaultArithmeticMode (Configure config g) = Config.ArithmeticMode config /\
  GetMemoryUsage (Configure config g) =
    (if Config.EnableFastConversion config then 1024 else 0) +
    (if Config.EnableFastArithmetic config then 262144 else 0) /\
  Configure config (Configure config g) = Configure config g.
Proof.
  intros Hg.
  destruct (Configure_fields config g) as (Hcm & Ham & Hconv & Hadd).
  assert (Hok : conversion_ok (Configure config g) /\
                tables_ok (Configure config g)).
  { apply reachable_ok in Hg as [Hc Ht]. now apply ok_Configure. }
  destruct Hok as [Hc Ht].
  destruct (usage_ok (Configure config g) Hc Ht) as (_ & Husage & _).
  rewrite Hconv, Hadd in Husage.
  exact (conj Hcm (conj Ham (conj Husage (Configure_twice config g)))).
Qed.

Lemma Configure_postcondition_witness :
  DefaultConversionMode
    (Configure (Config.mk false true ModeStrict ArithmeticAlgorithmic)
               (run DoEnableFastArithmetic initial)) = ModeStrict /\
  DefaultArithmeticMode
    (Configure (Config.mk false true ModeStrict ArithmeticAlgorithmic)
               (run DoEnableFastArithmetic initial)) =
    ArithmeticAlgorithmic /\
  GetMemoryUsage
    (Configure (Config.mk false true ModeStrict ArithmeticAlgorithmic)
               (run DoEnableFastArithmetic initial)) = 1024 /\
  Configure (Config.mk false true ModeStrict ArithmeticAlgorithmic)
    (Configure (Config.mk false true ModeStrict ArithmeticAlgorithmic)
               (run DoEnableFastArithmetic initial)) =
  Configure (Config.mk false true ModeStrict ArithmeticAlgorithmic)
            (run DoEnableFastArithmetic initial).
Proof.
  apply (Configure_postcondition
           (Config.mk false true ModeStrict ArithmeticAlgorithmic)
           (run DoEnableFastArithmetic initial)).
  apply reachable_run, reachable_initial.
Defined.

(** ** Interpolation *)

Lemma compose_in_u8 (sign exp8 mant8 : Z) : in_u8 (compose sign exp8 mant8).
Proof. unfold compose, u8, in_u8. apply Z.mod_pos_bound. lia. Qed.

Opaque F32.Float32bits.

Lemma ToFloat8_in_u8 (g : Globals) (x : float32) : in_u8 (ToFloat8 g x).
Proof.
  unfold ToFloat8, ToFloat8WithMode. cbv zeta.
  repeat case_match; cbn [fst]; try apply compose_in_u8;
    unfold signed_zero, signed_inf; repeat case_match;
    vm_compute; split; congruence.
Qed.

Transparent F32.Float32bits.

Lemma algorithmic_in_u8 (g : Globals) (a b : Float8) :
  in_u8 a -> in_u8 b ->
  in_u8 (addAlgorithmic g a b) /\ in_u8 (subAlgorithmic g a b) /\
  in_u8 (mulAlgorithmic g a b) /\ in_u8 (divAlgorithmic g a b).
Proof.
  intros Ha Hb. pose proof (Neg_in_u8 b Hb) as Hnb.
  unfold addAlgorithmic, subAlgorithmic, mulAlgorithmic, divAlgorithmic.
  cbv zeta. generalize dependent (Neg b). intros nb Hnb.
  split; [|split; [|split]]; repeat case_match;
    try assumption; try apply ToFloat8_in_u8; vm_compute; split; congruence.
Qed.

(** In every state of the package, interpolating with a factor that is a
    zero gives the first endpoint back, provided that the difference of the
    endpoints is finite (it did not overflow and is not NaN) and the first
    endpoint is not a zero; when the first endpoint is a zero the result is a
    zero, of either sign. *)
Theorem Lerp_at_zero (g : Globals) (a b t : Float8) :
  reachable g -> in_u8 a -> in_u8 b -> IsZero t = true ->
  IsInf (Sub g b a) = false -> IsNaN (Sub g b a) = false ->
  (IsZero a = false -> Math.Lerp g a b t = a) /\
  (IsZero a = true -> IsZero (Math.Lerp g a b t) = true).
Proof.
  intros Hg Ha Hb Hzt Hinf Hnan. unfold Math.Lerp. cbv zeta.
  assert (Ht : in_u8 t).
  { apply IsZero_true in Hzt as [-> | ->]; vm_compute; split; congruence. }
  assert (Hd : in_u8 (Sub g b a)).
  { destruct (dispatch_algorithmic g b a (DefaultArithmeticMode g))
      as (g0 & _ & _ & Hsub & _); try done.
    unfold Sub. rewrite Hsub. now apply algorithmic_in_u8. }
  set (d := Sub g b a) in *.
  assert (Hmul : Mul g t d = zero_of_sign (xorb (sign_bit t) (sign_bit d))).
  { destruct (dispatch_algorithmic g t d (DefaultArithmeticMode g))
      as (g1 & _ & _ & _ & Hmul & _); try done.
    unfold Mul. rewrite Hmul.
    destruct (mulAlgorithmic_special g1 t d) as (_ & Hzero & _);
      [now apply IsZero_not_nan | exact Hnan |].
    apply Hzero; [now rewrite Hzt | | exact Hinf].
    destruct (IsInf t) eqn:Hit; [|reflexivity].
    apply IsInf_not_zero in Hit. congruence. }
  rewrite Hmul.
  set (z := zero_of_sign (xorb (sign_bit t) (sign_bit d))).
  assert (Hz : in_u8 z /\ IsZero z = true).
  { subst z. destruct (xorb (sign_bit t) (sign_bit d));
      (split; [vm_compute; split; congruence | reflexivity]). }
  destruct Hz as [Hz Hzz].
  destruct (dispatch_algorithmic g a z (DefaultArithmeticMode g))
    as (g2 & _ & Hadd & _); try done.
  unfold Add. rewrite Hadd.
  destruct (addAlgorithmic_special g2 a z) as (Hleft & Hright & _).
  split.
  - intros Hza. now apply Hright.
  - intros Hza. now rewrite Hleft.
Qed.

Lemma Lerp_at_zero_witness :
  (IsZero 0x45 = false -> Math.Lerp initial 0x45 0xC0 0x80 = 0x45) /\
  (IsZero 0x45 = true -> IsZero (Math.Lerp initial 0x45 0xC0 0x80) = true).
Proof.
  apply (Lerp_at_zero initial 0x45 0xC0 0x80).
  - apply reachable_initial.
  - unfold in_u8. lia.
  - unfold in_u8. lia.
  - reflexivity.
  - vm_compute. reflexivity.
  - vm_compute. reflexivity.
Defined.
